(** * Key-point detection on force-plate series: [utils/data_processor.py]

    A shallow embedding of [find_balance_point] and [process_force_data]
    together with the pandas operations they call.

    Modelling choices.
    - Cells.  A cell is the value it holds, a rational [Q]: every [int64]
      and every finite [float64] is one, and the comparisons of the source
      are exact on them.  NaN cells are left out.
    - Arithmetic.  The differences and the quotient of the source are
      numpy's ([int64] wraps, [float64] rounds) and the standard deviation
      is pandas' (computed in [float64]); they are the operations of the
      interface [Numeric], and every statement holds for each
      implementation of it.  [exact_numeric] implements it without
      rounding, for the examples.
    - Frames.  A [DataFrame] is an index of integer labels and a dictionary
      from column names to columns, so it carries each label once.  The
      frames the application builds come from [pd.read_csv], whose index is
      [RangeIndex(0, n)]; [well_formed] says so.  pandas also holds frames
      that carry a label twice, which [df.rename] builds when it renames a
      column onto a label the file already has ([renamed_labels]); on these
      [df.loc[idx, 'time']] is a Series, not a cell, and they are outside
      the statements about [process_force_data].
    - Exceptions.  Python exceptions are values of [result].
    - Streamlit.  [st.warning] appends a message to the rendered page, which
      is threaded through [process_force_data] as explicit state. *)

From Stdlib Require Import ZArith QArith Qround Lia Reals Qreals Psatz.
From stdpp Require Import gmap strings list.

#[local] Set Warnings "-clear-no-such-hyp".
Local Open Scope Z_scope.

(** ** Python results *)

Inductive exn : Type := KeyError | IndexError | ValueError.

Inductive result (A : Type) : Type :=
| Ok (a : A)
| Raise (e : exn).
Arguments Ok {A} a.
Arguments Raise {A} e.

#[global] Instance result_ret : MRet result := λ A a, Ok a.

#[global] Instance result_bind : MBind result := λ A B k r,
  match r with
  | Ok a => k a
  | Raise e => Raise e
  end.

#[global] Instance result_fmap : FMap result := λ A B f r,
  match r with
  | Ok a => Ok (f a)
  | Raise e => Raise e
  end.

(** ** Python sequences *)

(** [l[i]] with Python's negative indices; out of range is [IndexError]. *)
Definition py_get {A : Type} (l : list A) (i : Z) : result A :=
  let n := Z.of_nat (length l) in
  let j := if i <? 0 then i + n else i in
  if (0 <=? j) && (j <? n) then
    match l !! Z.to_nat j with
    | Some a => Ok a
    | None => Raise IndexError
    end
  else Raise IndexError.

(** [range(a, b)]. *)
Definition py_range (a b : Z) : list Z := seqZ a (b - a).

(** Start position of the slice [l[k:]] of a sequence of length [n]. *)
Definition slice_start (n : nat) (k : Z) : nat :=
  Z.to_nat (if k <? 0 then Z.max 0 (k + Z.of_nat n) else Z.min k (Z.of_nat n)).

(** ** Frames *)

Record DataFrame : Type := mkDataFrame {
  index : list Z;
  data : gmap string (list Q)
}.

Definition RangeIndex (n : nat) : list Z := seqZ 0 (Z.of_nat n).

Definition columns (df : DataFrame) : gset string := dom (data df).

(** [len(df)]. *)
Definition len (df : DataFrame) : Z := Z.of_nat (length (index df)).

(** Frames as [pd.read_csv] builds them: labels [0 .. n-1] and every column
    as long as the index. *)
Definition well_formed (df : DataFrame) : Prop :=
  index df = RangeIndex (length (index df)) ∧
  ∀ c col, data df !! c = Some col → length col = length (index df).

(** [df[c]]. *)
Definition column (df : DataFrame) (c : string) : result (list Q) :=
  match data df !! c with
  | Some col => Ok col
  | None => Raise KeyError
  end.

(** [Index.get_loc]: position of the first row labelled [label]. *)
Fixpoint get_loc (idx : list Z) (label : Z) : result nat :=
  match idx with
  | [] => Raise KeyError
  | l :: idx' =>
      if l =? label then Ok 0%nat
      else p ← get_loc idx' label; Ok (S p)
  end.

(** [df.loc[label, c]]. *)
Definition loc (df : DataFrame) (label : Z) (c : string) : result Q :=
  col ← column df c;
  p ← get_loc (index df) label;
  match col !! p with
  | Some v => Ok v
  | None => Raise KeyError
  end.

(** Rows of a column paired with their labels. *)
Definition labelled (idx : list Z) (col : list Q) : list (Z * Q) := zip idx col.

Definition in_slice (lo hi : Z) (row : Z * Q) : bool :=
  (lo <=? row.1) && (row.1 <=? hi).

(** [df.loc[lo:hi, c]]: on an increasing index a label slice keeps the rows
    whose label lies in the closed range [lo .. hi]; labels that are not in
    the index only clip the slice. *)
Definition loc_slice (df : DataFrame) (lo hi : Z) (c : string) : result (list Q) :=
  col ← column df c;
  Ok (snd <$> List.filter (in_slice lo hi) (labelled (index df) col)).

(** [df.iloc[k:]]. *)
Definition iloc_from (df : DataFrame) (k : Z) : DataFrame :=
  let s := slice_start (length (index df)) k in
  {| index := drop s (index df); data := drop s <$> data df |}.

(** Position of the first least (greatest) cell, as [numpy.argmin]
    ([argmax]) finds it: a later cell replaces the best one only when it is
    strictly smaller (greater). *)
Fixpoint arg_scan (better : Q → Q → bool) (best_pos : nat) (best : Q)
    (pos : nat) (l : list Q) : nat :=
  match l with
  | [] => best_pos
  | x :: l' =>
      if better x best then arg_scan better pos x (S pos) l'
      else arg_scan better best_pos best (S pos) l'
  end.

Definition Qltb (x y : Q) : bool := negb (Qle_bool y x).

Definition argmin (l : list Q) : option nat :=
  match l with
  | [] => None
  | x :: l' => Some (arg_scan Qltb 0%nat x 1%nat l')
  end.

Definition argmax (l : list Q) : option nat :=
  match l with
  | [] => None
  | x :: l' => Some (arg_scan (λ a b, Qltb b a) 0%nat x 1%nat l')
  end.

(** [df[c].idxmin()] and [df[c].idxmax()]: the label of the extremal row;
    [ValueError] on an empty column. *)
Definition idx_of (df : DataFrame) (pos : option nat) : result Z :=
  match pos with
  | None => Raise ValueError
  | Some p => py_get (index df) (Z.of_nat p)
  end.

Definition idxmin (df : DataFrame) (c : string) : result Z :=
  col ← column df c; idx_of df (argmin col).

Definition idxmax (df : DataFrame) (c : string) : result Z :=
  col ← column df c; idx_of df (argmax col).

(** ** The arithmetic of numpy and pandas

    The source subtracts and divides numpy scalars and compares a pandas
    standard deviation with a threshold.  What these operations return
    depends on the dtype of the column and on the library's rounding:
    numpy wraps the difference of two [int64] cells modulo [2^64] and
    rounds that of two [float64] cells, and pandas computes a standard
    deviation in [float64].  They are the operations of an interface, with
    the properties the proofs use. *)

(** A numpy scalar: a finite value, an infinity or NaN. *)
Inductive scalar : Type :=
| Finite (q : Q)
| Infinity (negative : bool)
| NotANumber.
Coercion Finite : Q >-> scalar.

(** [s != 0]. *)
Definition scalar_nonzero (s : scalar) : bool :=
  match s with
  | Finite q => negb (Qeq_bool q 0)
  | Infinity _ | NotANumber => true
  end.

(** [s >= 0]. *)
Definition scalar_nonneg (s : scalar) : Prop :=
  match s with
  | Finite q => (0 <= q)%Q
  | Infinity negative => negative = false
  | NotANumber => False
  end.

(** [std_lt window threshold] is [window_data.std() < std_threshold]: a
    standard deviation of fewer than two cells is NaN, which is below
    nothing, and no standard deviation is negative.  [np_sub c x y] is
    [x - y] for two cells of the column labelled [c]: it is zero exactly
    when the cells are equal, in [int64] as in [float64].  [np_div x y] is
    [x / y]. *)
Class Numeric : Type := {
  std_lt : list Q → Q → bool;
  np_sub : string → Q → Q → scalar;
  np_div : scalar → scalar → scalar;
  std_lt_short : ∀ window threshold,
    (length window < 2)%nat → std_lt window threshold = false;
  std_lt_nonpos : ∀ window threshold,
    (threshold <= 0)%Q → std_lt window threshold = false;
  np_sub_zero : ∀ c x y,
    scalar_nonzero (np_sub c x y) = false ↔ (x == y)%Q
}.

(** ** Arithmetic without rounding *)

Definition Qsum (l : list Q) : Q := foldr Qplus 0%Q l.

Definition Qsquare (x : Q) : Q := (x * x)%Q.

(** The sample variance: the squared deviations from the mean, summed and
    divided by [count - 1]; [None] below two cells. *)
Definition var (l : list Q) : option Q :=
  let count := Z.of_nat (length l) in
  if count <=? 1 then None
  else
    let avg := (Qsum l / inject_Z count)%Q in
    Some (Qsum ((λ x, Qsquare (avg - x)) <$> l) / inject_Z (count - 1))%Q.

(** A standard deviation: NaN, or the square root of a rational. *)
Inductive Std : Type :=
| NaN
| Sqrt (v : Q).

Definition std (l : list Q) : Std :=
  match var l with
  | None => NaN
  | Some v => Sqrt v
  end.

(** [s < threshold]: false on NaN; a square root is below [threshold] when
    the threshold is positive and its square exceeds the radicand. *)
Definition Std_ltb (s : Std) (threshold : Q) : bool :=
  match s with
  | NaN => false
  | Sqrt v => Qltb 0 threshold && Qltb v (threshold * threshold)
  end.

(** The real number a [Std] stands for. *)
Definition Std_real (s : Std) : option R :=
  match s with
  | NaN => None
  | Sqrt v => Some (sqrt (Q2R v))
  end.

Definition exact_sub (x y : Q) : scalar := Finite (x - y).

Definition exact_div (x y : scalar) : scalar :=
  match x, y with
  | Finite a, Finite b =>
      if Qeq_bool b 0 then
        if Qeq_bool a 0 then NotANumber else Infinity (Qltb a 0)
      else Finite (a / b)
  | Finite _, Infinity _ => Finite 0
  | Infinity n, Finite b => Infinity (xorb n (Qltb b 0))
  | _, _ => NotANumber
  end.

(** The interface without rounding and without overflow: the standard
    deviation is compared exactly, differences and quotients are those of
    the rationals. *)
#[global] Instance exact_numeric : Numeric.
Proof.
  refine {| std_lt := λ window threshold, Std_ltb (std window) threshold;
            np_sub := λ _, exact_sub;
            np_div := exact_div |}.
  - intros window threshold Hlen. unfold std, var.
    destruct (Z.leb_spec (Z.of_nat (length window)) 1) as [_|?]; [done|lia].
  - intros window threshold Hthr. destruct (std window); [done|]. simpl.
    unfold Qltb at 1. apply Qle_bool_iff in Hthr. by rewrite Hthr.
  - intros c x y. unfold exact_sub. simpl. rewrite negb_false_iff, Qeq_bool_iff.
    split; intros Heq; lra.
Defined.

(** ** Subtraction in [int64] *)

Definition wrap64 (z : Z) : Z := (z + 2 ^ 63) mod 2 ^ 64 - 2 ^ 63.

(** The cell is an [int64] value. *)
Definition is_int64 (x : Q) : bool :=
  Qeq_bool x (inject_Z (Qfloor x)) &&
  ((- 2 ^ 63 <=? Qfloor x) && (Qfloor x <? 2 ^ 63)).

(** [x - y] on two [int64] cells wraps modulo [2^64]; on cells that are not
    [int64] values, which an [int64] column does not hold, it is the exact
    difference. *)
Definition int64_sub (x y : Q) : scalar :=
  if is_int64 x && is_int64 y
  then Finite (inject_Z (wrap64 (Qfloor x - Qfloor y)))
  else Finite (x - y).

(** An implementation whose columns are [int64]: its subtraction wraps, the
    other operations are those of [N]. *)
Definition int64_numeric (N : Numeric) : Numeric.
Proof.
  refine {| std_lt := @std_lt N;
            np_sub := λ _, int64_sub;
            np_div := @np_div N;
            std_lt_short := @std_lt_short N;
            std_lt_nonpos := @std_lt_nonpos N |}.
  intros _ x y. unfold int64_sub.
  destruct (is_int64 x && is_int64 y) eqn:Eint; simpl;
    rewrite negb_false_iff, Qeq_bool_iff.
  - apply andb_true_iff in Eint as [Hx Hy]. unfold is_int64 in Hx, Hy.
    apply andb_true_iff in Hx as [Hx [Hxlo Hxhi]%andb_true_iff].
    apply andb_true_iff in Hy as [Hy [Hylo Hyhi]%andb_true_iff].
    apply Qeq_bool_iff in Hx, Hy.
    apply Z.leb_le in Hxlo, Hylo. apply Z.ltb_lt in Hxhi, Hyhi.
    assert (wrap64 (Qfloor x - Qfloor y) = 0 ↔ Qfloor x = Qfloor y) as Hwrap.
    { unfold wrap64.
      pose proof (Z.div_mod (Qfloor x - Qfloor y + 2 ^ 63) (2 ^ 64)
                    ltac:(lia)) as Hdm.
      pose proof (Z.mod_pos_bound (Qfloor x - Qfloor y + 2 ^ 63) (2 ^ 64)
                    ltac:(lia)) as Hb.
      lia. }
    split.
    + intros Hz. assert (wrap64 (Qfloor x - Qfloor y) = 0) as Hw.
      { apply (inject_Z_injective _ 0). exact Hz. }
      apply Hwrap in Hw. rewrite Hx, Hy, Hw. reflexivity.
    + intros Hxy. assert (Qfloor x = Qfloor y) as Hf.
      { apply inject_Z_injective. by rewrite <- Hx, <- Hy. }
      apply Hwrap in Hf. rewrite Hf. reflexivity.
  - split; intros Heq; lra.
Defined.

(** ** Key points *)

(** The dictionaries [{'time': ..., 'force': ...}] of the source. *)
Record KeyPoint : Type := mkKeyPoint {
  time : Q;
  force : Q
}.

(** [{'time': df.loc[idx, 'time'], 'force': df.loc[idx, 'force']}]. *)
Definition point_at (df : DataFrame) (idx : Z) : result KeyPoint :=
  t ← loc df idx "time";
  f ← loc df idx "force";
  Ok {| time := t; force := f |}.

(** The label slices [df.loc[lo:hi, 'force']] a scan has read, oldest
    first. *)
Definition reads : Type := list (Z * Z).

Section model.
Context `{!Numeric}.

(** The loop of [find_balance_point] over the positions [rng] of
    [df_after_max]: [Ok (Some p)] is the early [return], [Ok None] is the
    loop running to its end. *)
Fixpoint balance_scan (df df_after_max : DataFrame) (window_size : Z)
    (std_threshold : Q) (rng : list Z) : reads * result (option KeyPoint) :=
  match rng with
  | [] => ([], Ok None)
  | i :: rng' =>
      match py_get (index df_after_max) i with
      | Raise e => ([], Raise e)
      | Ok current_idx =>
          let lo := current_idx - window_size in
          let hi := current_idx + window_size in
          match loc_slice df lo hi "force" with
          | Raise e => ([(lo, hi)], Raise e)
          | Ok window_data =>
              if std_lt window_data std_threshold
              then ([(lo, hi)], Some <$> point_at df current_idx)
              else
                let rest :=
                  balance_scan df df_after_max window_size std_threshold rng' in
                ((lo, hi) :: rest.1, rest.2)
          end
      end
  end.

(** [find_balance_point(df, max_force_idx, window_size, std_threshold)],
    with the slices it read. *)
Definition find_balance_point_reads (df : DataFrame) (max_force_idx : Z)
    (window_size : Z) (std_threshold : Q) : reads * result KeyPoint :=
  let df_after_max := iloc_from df max_force_idx in
  let scan :=
    balance_scan df df_after_max window_size std_threshold
      (py_range window_size (len df_after_max - window_size)) in
  (scan.1,
   found ← scan.2;
   match found with
   | Some point => Ok point
   | None =>
       last_idx ← py_get (index df) (-1);
       point_at df last_idx
   end).

Definition find_balance_point (df : DataFrame) (max_force_idx : Z)
    (window_size : Z) (std_threshold : Q) : result KeyPoint :=
  (find_balance_point_reads df max_force_idx window_size std_threshold).2.

(** The defaults [window_size=30, std_threshold=1]. *)
Definition default_window_size : Z := 30.
Definition default_std_threshold : Q := 1.

Record Stats : Type := mkStats {
  RFD : scalar;
  recovery_time : scalar
}.

Record Points : Type := mkPoints {
  A : KeyPoint;
  B : KeyPoint;
  C : KeyPoint;
  stats : Stats
}.

(** The part of [process_force_data] after the column check. *)
Definition key_points (df : DataFrame) : result Points :=
  min_force_idx ← idxmin df "force";
  point_a ← point_at df min_force_idx;
  max_force_idx ← idxmax df "force";
  point_b ← point_at df max_force_idx;
  point_c ← find_balance_point df max_force_idx
               default_window_size default_std_threshold;
  let delta_force := np_sub "force" (force point_b) (force point_a) in
  let delta_time := np_sub "time" (time point_b) (time point_a) in
  let rfd :=
    if scalar_nonzero delta_time then np_div delta_force delta_time
    else Finite 0 in
  let recovery_time := np_sub "time" (time point_c) (time point_b) in
  Ok {| A := point_a; B := point_b; C := point_c;
        stats := {| RFD := rfd; recovery_time := recovery_time |} |}.

(** ** Streamlit *)

(** The warnings rendered on the page, oldest first. *)
Definition page : Type := list string.

Definition st_warning (msg : string) (pg : page) : page := pg ++ [msg].

Definition time_warning : string :=
  "處理數據找不到預設的時間欄位: {'time'}，請自行選擇時間欄位".

Definition force_warning : string :=
  "處理數據找不到預設的力量欄位: {'force'}，請自行選擇力量欄位".

(** The body of [for col in missing_columns]. *)
Definition warn_missing (pg : page) (col : string) : page :=
  let pg := if decide (col = "time") then st_warning time_warning pg else pg in
  if decide (col = "force") then st_warning force_warning pg else pg.

Definition required_columns : gset string := {[ "time"; "force" ]}.

(** [process_force_data(df)].  Python does not fix the order in which a
    set is iterated, so the order [iter] is a parameter.  The value is the
    returned pair (or the exception) and the page after the call. *)
Definition process_force_data_with (iter : gset string → list string)
    (df : DataFrame) (pg : page)
    : result (DataFrame * option Points) * page :=
  let current_columns := columns df in
  if decide (required_columns ⊆ current_columns) then
    (points ← key_points df; Ok (df, Some points), pg)
  else
    let missing_columns := required_columns ∖ current_columns in
    (Ok (df, None), foldl warn_missing pg (iter missing_columns)).

(** An iteration order visits every element of the set once. *)
Definition iteration_order (iter : gset string → list string) : Prop :=
  ∀ s, iter s ≡ₚ elements s.

Definition process_force_data (df : DataFrame) (pg : page)
    : result (DataFrame * option Points) * page :=
  process_force_data_with elements df pg.

End model.

(** ** The words of the specification *)

(** The closed index range [[c - w, c + w]] of a column. *)
Definition closed_window (col : list Q) (c w : Z) : list Q :=
  take (Z.to_nat (2 * w + 1)) (drop (Z.to_nat (c - w)) col).

(** The sample at index [i] of a series. *)
Definition sample_at (ts fs : list Q) (i : nat) : option KeyPoint :=
  t ← ts !! i; f ← fs !! i; Some {| time := t; force := f |}.

(** The scan's test at the candidate [c]: [window_data.std() <
    std_threshold] on the window around [c]. *)
Definition stable_at `{!Numeric} (fs : list Q) (w : Z) (threshold : Q)
    (c : Z) : bool :=
  std_lt (closed_window fs c w) threshold.

(** The statistics [process_force_data] derives from the three points. *)
Definition derived_stats `{!Numeric} (pa pb pc : KeyPoint) : Stats :=
  {| RFD :=
       if scalar_nonzero (np_sub "time" (time pb) (time pa))
       then np_div (np_sub "force" (force pb) (force pa))
                   (np_sub "time" (time pb) (time pa))
       else Finite 0;
     recovery_time := np_sub "time" (time pc) (time pb) |}.

Definition Rsum (l : list R) : R := foldr Rplus 0%R l.

(** The sample standard deviation over the reals, without rounding:
    the square root of the squared deviations from the mean, summed and
    divided by [N - 1]; undefined on fewer than two cells. *)
Definition sample_std (l : list Q) : option R :=
  if (length l <? 2)%nat then None
  else
    let xs := Q2R <$> l in
    let n := INR (length l) in
    let mean := (Rsum xs / n)%R in
    Some (sqrt (Rsum ((λ x, (x - mean) * (x - mean))%R <$> xs) / (n - 1))).

(** The sample standard deviation of the window around [c], without
    rounding, is strictly below the threshold. *)
Definition std_below (fs : list Q) (w : Z) (threshold : Q) (c : Z) : Prop :=
  ∃ r, sample_std (closed_window fs c w) = Some r ∧ (r < Q2R threshold)%R.

(** ** Frames for the examples *)

(** A frame with the two canonical columns, as the application has it after
    [pd.read_csv] and [rename]. *)
Definition frame (ts fs : list Q) : DataFrame :=
  {| index := RangeIndex (length ts);
     data := {[ "time" := ts; "force" := fs ]} |}.

(** [first_best lt le l r x]: [x] is the cell at position [r], no cell is
    better and every earlier cell is strictly worse. *)
Definition first_best (lt le : Q → Q → Prop) (l : list Q) (r : nat) (x : Q)
    : Prop :=
  l !! r = Some x ∧
  (∀ j y, l !! j = Some y → le x y) ∧
  (∀ j y, (j < r)%nat → l !! j = Some y → lt x y).

(** The first least cell. *)
Definition first_min : list Q → nat → Q → Prop := first_best Qlt Qle.

(** The first greatest cell. *)
Definition first_max : list Q → nat → Q → Prop :=
  first_best (λ x y, (y < x)%Q) (λ x y, (y <= x)%Q).

(** The messages one missing column adds to the page. *)
Definition warnings_for (col : string) : list string :=
  (if decide (col = "time") then [time_warning] else []) ++
  (if decide (col = "force") then [force_warning] else []).

(** Times that never decrease along the series. *)
Definition nondecreasing (ts : list Q) : Prop :=
  ∀ i j x y, (i ≤ j)%nat → ts !! i = Some x → ts !! j = Some y → (x <= y)%Q.

Fixpoint nondecreasingb (ts : list Q) : bool :=
  match ts with
  | x :: ts' =>
      match ts' with
      | y :: _ => Qle_bool x y && nondecreasingb ts'
      | [] => true
      end
  | [] => true
  end.

(** No difference of a later and an earlier time of the series overflows:
    it is not negative as numpy computes it. *)
Definition sub_keeps_order `{!Numeric} (ts : list Q) : Prop :=
  ∀ x y, x ∈ ts → y ∈ ts → (x <= y)%Q → scalar_nonneg (np_sub "time" y x).

(** A warning names a role when it quotes the role's column name. *)
Definition names (msg role : string) : bool :=
  bool_decide (is_Some (String.index 0 ("'" +:+ role +:+ "'") msg)).

(** Seven samples: the peak at index 2, a flat tail from index 3 on. *)
Definition steady_times : list Q := [0; 1; 2; 3; 4; 5; 6]%Q.
Definition steady_forces : list Q := [0; -5; 10; 9; 9; 9; 9]%Q.
Definition steady : DataFrame := frame steady_times steady_forces.

(** Seventy-two samples: the peak at index 1, then a flat tail, long enough
    for the default window of 30. *)
Definition jump_times : list Q := inject_Z <$> seqZ 0 72.
Definition jump_forces : list Q := [0; 100]%Q ++ replicate 70 50%Q.
Definition jump : DataFrame := frame jump_times jump_forces.

(** Two samples with [int64] times further apart than [2^63]. *)
Definition wide_times : list Q :=
  inject_Z <$> [-9000000000000000000; 9000000000000000000].
Definition wide_forces : list Q := [5; 1]%Q.
Definition wide : DataFrame := frame wide_times wide_forces.

(** Two samples with [int64] forces further apart than [2^63]. *)
Definition steep : DataFrame :=
  frame (inject_Z <$> [0; 1])
        (inject_Z <$> [-9000000000000000000; 9000000000000000000]).

(** Frames whose columns were not mapped onto both roles. *)
Definition no_force : DataFrame :=
  {| index := RangeIndex 2; data := {[ "time" := [0; 1]%Q ]} |}.
Definition no_roles : DataFrame :=
  {| index := RangeIndex 2;
     data := {[ "elapsed" := [0; 1]%Q; "Fz" := [3; 4]%Q ]} |}.

(** ** The column selection of [app.py]

    Strings are their UTF-8 bytes: on well-formed UTF-8 one string occurs in
    another as bytes exactly when it does as characters.  [str.lower] is a
    parameter of the definitions that use it. *)

(** [keyword in s]. *)
Fixpoint contains (keyword s : string) : bool :=
  String.prefix keyword s ||
  match s with
  | EmptyString => false
  | String _ s' => contains keyword s'
  end.

Section column_defaults.
Context (lower : string → string).

(** The loop [for idx, col in enumerate(columns)] with its [break], on the
    columns from position [idx] on: the position of the first column whose
    lowered name contains [keyword]. *)
Fixpoint first_keyword_column (keyword : string) (idx : nat)
    (columns : list string) : option nat :=
  match columns with
  | [] => None
  | col :: columns' =>
      if contains keyword (lower col) then Some idx
      else first_keyword_column keyword (S idx) columns'
  end.

(** The loop [for keyword in keywords], started with [default_idx]: a
    keyword that is found moves the index, and the loop breaks as soon as
    the index is not 0. *)
Fixpoint default_column_idx (keywords columns : list string)
    (default_idx : nat) : nat :=
  match keywords with
  | [] => default_idx
  | keyword :: keywords' =>
      let default_idx :=
        match first_keyword_column keyword 0 columns with
        | Some idx => idx
        | None => default_idx
        end in
      if negb (default_idx =? 0)%nat then default_idx
      else default_column_idx keywords' columns default_idx
  end.

Definition time_keywords : list string := ["时间"; "時間"; "time"].
Definition force_keywords : list string := ["sumforce"; "force"].

Definition default_time_idx (columns : list string) : nat :=
  default_column_idx time_keywords columns 0.

Definition default_force_idx (columns : list string) : nat :=
  default_column_idx force_keywords columns 0.

End column_defaults.

(** [str.lower] on ASCII letters, for the examples. *)
Definition lower_ascii (c : Ascii.ascii) : Ascii.ascii :=
  let n := Ascii.nat_of_ascii c in
  if (65 <=? n)%nat && (n <=? 90)%nat then Ascii.ascii_of_nat (n + 32)
  else c.

Fixpoint ascii_lower (s : string) : string :=
  match s with
  | EmptyString => EmptyString
  | String c s' => String (lower_ascii c) (ascii_lower s')
  end.

(** The first non-zero position in a list of search results. *)
Fixpoint first_nonzero (found : list (option nat)) : nat :=
  match found with
  | [] => 0
  | Some (S k) :: _ => S k
  | _ :: found' => first_nonzero found'
  end.

(** ** The renaming and the analysis in [main] *)

(** The dictionary [{time_column: 'time', force_column: 'force'}]: when the
    two keys are equal the later entry replaces the earlier. *)
Definition rename_mapper (time_column force_column : string)
    : gmap string string :=
  <[force_column := "force"]> (<[time_column := "time"]> ∅).

Definition rename_label (mapper : gmap string string) (c : string) : string :=
  default c (mapper !! c).

(** A column under its new label. *)
Definition renamed (mapper : gmap string string) (column : string * list Q)
    : string * list Q :=
  (rename_label mapper column.1, column.2).

(** [df.rename(columns=mapper)].  When the mapping sends two labels to the
    same one pandas keeps both columns under it; a dictionary of columns
    keeps one of them, so on such frames only the labels of the result are
    those of pandas. *)
Definition rename (df : DataFrame) (mapper : gmap string string) : DataFrame :=
  {| index := index df;
     data := list_to_map (renamed mapper <$> map_to_list (data df)) |}.

(** The labels of [df.rename(columns=mapper)], in the order of the file:
    pandas renames each label and keeps those that now repeat. *)
Definition renamed_labels (mapper : gmap string string)
    (labels : list string) : list string :=
  rename_label mapper <$> labels.

(** The header of a file that has a column named [time] besides the one the
    keyword search selects. *)
Definition repeating_header : list string := ["force"; "Time(s)"; "time"].

(** No two labels of the frame are renamed to the same label. *)
Definition rename_safe (df : DataFrame) (mapper : gmap string string) : Prop :=
  ∀ c c', c ∈ columns df → c' ∈ columns df →
          rename_label mapper c = rename_label mapper c' → c = c'.

Inductive app_exn : Type :=
| Pandas (e : exn)
| AttributeError.

Inductive app_result (A : Type) : Type :=
| Shown (a : A)
| Crash (e : app_exn).
Arguments Shown {A} a.
Arguments Crash {A} e.

(** [main], from the renaming of the two selected columns of the uploaded
    frame to the loop over the key points: [df.rename], [process_force_data],
    the chart's [df['time']] and [df['force']], and [points.items()].  The
    widgets drawn on the way are left out; [Shown points] stands for the
    formatting and drawing of these points that follows. *)
Definition main `{!Numeric} (df : DataFrame)
    (time_column force_column : string) (pg : page)
    : app_result Points * page :=
  let df := rename df (rename_mapper time_column force_column) in
  let run := process_force_data df pg in
  match run.1 with
  | Raise e => (Crash (Pandas e), run.2)
  | Ok (df, points) =>
      match column df "time" with
      | Raise e => (Crash (Pandas e), run.2)
      | Ok _ =>
          match column df "force" with
          | Raise e => (Crash (Pandas e), run.2)
          | Ok _ =>
              match points with
              | None => (Crash AttributeError, run.2)
              | Some points => (Shown points, run.2)
              end
          end
      end
  end.

(** An upload with a time column, a force column and a third one. *)
Definition upload : DataFrame :=
  {| index := RangeIndex 3;
     data := {[ "Time(s)" := [0; 1; 2]%Q; "SumForce" := [5; 9; 7]%Q;
                "Fx" := [1; 1; 1]%Q ]} |}.

(** * Properties *)

(** ** Sequences and frames *)

Lemma py_get_lookup {X : Type} (l : list X) (k : nat) (x : X) :
  l !! k = Some x → py_get l (Z.of_nat k) = Ok x.
Proof.
  intros Hk. pose proof (lookup_lt_Some _ _ _ Hk) as Hlt.
  unfold py_get.
  destruct (Z.ltb_spec (Z.of_nat k) 0) as [?|_]; [lia|].
  destruct (Z.leb_spec 0 (Z.of_nat k)) as [_|?]; [|lia].
  destruct (Z.ltb_spec (Z.of_nat k) (Z.of_nat (length l))) as [_|?]; [|lia].
  simpl. by rewrite Nat2Z.id, Hk.
Qed.

Lemma py_get_last {X : Type} (l : list X) (x : X) :
  l !! (length l - 1)%nat = Some x → py_get l (-1) = Ok x.
Proof.
  intros Hk. pose proof (lookup_lt_Some _ _ _ Hk) as Hlt.
  unfold py_get. simpl.
  destruct (Z.leb_spec 0 (-1 + Z.of_nat (length l))) as [_|?]; [|lia].
  destruct (Z.ltb_spec (-1 + Z.of_nat (length l)) (Z.of_nat (length l)))
    as [_|?]; [|lia].
  simpl. replace (Z.to_nat (-1 + Z.of_nat (length l))) with (length l - 1)%nat
    by lia.
  by rewrite Hk.
Qed.

Lemma py_get_Ok_lookup {X : Type} (l : list X) (i : Z) (x : X) :
  0 ≤ i → py_get l i = Ok x → l !! Z.to_nat i = Some x.
Proof.
  intros Hi. unfold py_get.
  destruct (Z.ltb_spec i 0) as [?|_]; [lia|].
  destruct (_ && _); [|done].
  destruct (l !! Z.to_nat i); [|done]. by intros [= ->].
Qed.

Lemma py_get_Ok_elem {X : Type} (l : list X) (i : Z) (x : X) :
  py_get l i = Ok x → ∃ k : nat, l !! k = Some x.
Proof.
  unfold py_get. destruct (_ && _); [|done].
  destruct (l !! Z.to_nat _) eqn:E; [|done]. intros [= ->]. by eexists.
Qed.

Lemma get_loc_seqZ (m : Z) (n k : nat) :
  (k < n)%nat → get_loc (seqZ m (Z.of_nat n)) (m + Z.of_nat k) = Ok k.
Proof.
  revert m k. induction n as [|n IH]; intros m k Hk; [lia|].
  rewrite seqZ_cons by lia. simpl.
  destruct (Z.eqb_spec m (m + Z.of_nat k)) as [He|Hne].
  - f_equal. lia.
  - destruct k as [|k]; [lia|].
    replace (Z.pred (Z.of_nat (S n))) with (Z.of_nat n) by lia.
    replace (m + Z.of_nat (S k)) with (Z.succ m + Z.of_nat k) by lia.
    by rewrite IH by lia.
Qed.

Section range_indexed.
Context (df : DataFrame) (Hwf : well_formed df).

Lemma index_lookup (k : nat) :
  (k < length (index df))%nat → index df !! k = Some (Z.of_nat k).
Proof.
  intros Hk. destruct Hwf as [Hidx _]. rewrite Hidx. unfold RangeIndex.
  rewrite lookup_seqZ_lt by lia. f_equal.
Qed.

Lemma index_lookup_inv (k : nat) (l : Z) :
  index df !! k = Some l → l = Z.of_nat k.
Proof.
  intros Hk. pose proof (lookup_lt_Some _ _ _ Hk) as Hlt.
  rewrite index_lookup in Hk by done. congruence.
Qed.

Lemma column_length (c : string) (col : list Q) :
  data df !! c = Some col → length col = length (index df).
Proof. destruct Hwf as [_ H]. apply H. Qed.

Lemma loc_lookup (c : string) (col : list Q) (k : nat) (v : Q) :
  data df !! c = Some col → col !! k = Some v →
  loc df (Z.of_nat k) c = Ok v.
Proof.
  intros Hc Hk. pose proof (lookup_lt_Some _ _ _ Hk) as Hlt.
  rewrite (column_length _ _ Hc) in Hlt.
  unfold loc, column. rewrite Hc. simpl.
  destruct Hwf as [Hidx _]. rewrite Hidx. unfold RangeIndex.
  rewrite <- (Z.add_0_l (Z.of_nat k)), get_loc_seqZ by done.
  simpl. by rewrite Hk.
Qed.

Lemma point_at_sample (ts fs : list Q) (k : nat) (p : KeyPoint) :
  data df !! "time" = Some ts → data df !! "force" = Some fs →
  sample_at ts fs k = Some p → point_at df (Z.of_nat k) = Ok p.
Proof.
  intros Ht Hf. unfold sample_at.
  destruct (ts !! k) as [t|] eqn:Etk; [|done].
  destruct (fs !! k) as [f|] eqn:Efk; [|done].
  simpl. intros [= <-]. unfold point_at.
  by rewrite (loc_lookup _ _ _ _ Ht Etk), (loc_lookup _ _ _ _ Hf Efk).
Qed.

Lemma sample_at_is_Some (ts fs : list Q) (k : nat) :
  data df !! "time" = Some ts → data df !! "force" = Some fs →
  (k < length (index df))%nat → is_Some (sample_at ts fs k).
Proof.
  intros Ht Hf Hk. unfold sample_at.
  destruct (lookup_lt_is_Some_2 ts k) as [t ->];
    [by rewrite (column_length _ _ Ht)|].
  destruct (lookup_lt_is_Some_2 fs k) as [f ->];
    [by rewrite (column_length _ _ Hf)|].
  by eexists.
Qed.
End range_indexed.

(** A label slice of a column over the labels [m, m+1, ...]. *)
Lemma slice_seqZ (col : list Q) (m lo hi : Z) :
  snd <$> List.filter (in_slice lo hi)
            (labelled (seqZ m (Z.of_nat (length col))) col)
  = take (Z.to_nat (hi + 1 - Z.max lo m)) (drop (Z.to_nat (lo - m)) col).
Proof.
  revert m. induction col as [|x col IH]; intros m.
  - by rewrite drop_nil, take_nil.
  - cbn [length]. rewrite seqZ_cons by lia.
    replace (Z.pred (Z.of_nat (S (length col)))) with (Z.of_nat (length col))
      by lia.
    unfold labelled in *. cbn [zip zip_with List.filter].
    unfold in_slice at 1. cbn [fst].
    destruct (Z.leb_spec lo m) as [Hlo|Hlo]; cbn [andb].
    + replace (Z.to_nat (lo - m)) with 0%nat by lia. cbn [drop].
      destruct (Z.leb_spec m hi) as [Hle|Hgt].
      * cbn [fmap list_fmap snd]. rewrite (IH (Z.succ m)).
        replace (Z.to_nat (lo - Z.succ m)) with 0%nat by lia.
        replace (Z.to_nat (hi + 1 - Z.max lo m))
          with (S (Z.to_nat (hi + 1 - Z.max lo (Z.succ m)))) by lia.
        done.
      * rewrite (IH (Z.succ m)).
        replace (Z.to_nat (hi + 1 - Z.max lo (Z.succ m))) with 0%nat by lia.
        replace (Z.to_nat (hi + 1 - Z.max lo m)) with 0%nat by lia.
        done.
    + rewrite (IH (Z.succ m)).
      replace (Z.to_nat (lo - m)) with (S (Z.to_nat (lo - Z.succ m))) by lia.
      replace (Z.max lo (Z.succ m)) with (Z.max lo m) by lia.
      done.
Qed.

Section scan.
Context `{!Numeric}.
Context (df : DataFrame) (Hwf : well_formed df).
Context (b w : Z) (Hb : 0 ≤ b) (Hw : 0 ≤ w).
Context (threshold : Q).

Lemma loc_slice_window (c : string) (col : list Q) (lo hi : Z) :
  data df !! c = Some col → 0 ≤ lo →
  loc_slice df lo hi c
  = Ok (take (Z.to_nat (hi + 1 - lo)) (drop (Z.to_nat lo) col)).
Proof using Hwf.
  intros Hc Hlo. unfold loc_slice, column. rewrite Hc. simpl. f_equal.
  destruct Hwf as [Hidx _]. rewrite Hidx. unfold RangeIndex.
  rewrite <- (column_length df Hwf c col Hc).
  rewrite slice_seqZ. by rewrite Z.sub_0_r, Z.max_l.
Qed.

Lemma after_len : len (iloc_from df b) = Z.max 0 (len df - b).
Proof using Hb.
  unfold len, iloc_from, slice_start. simpl. rewrite length_drop.
  destruct (Z.ltb_spec b 0); lia.
Qed.

Lemma after_get (i : Z) :
  0 ≤ i < len df - b → py_get (index (iloc_from df b)) i = Ok (b + i).
Proof using Hwf Hb.
  intros Hi. unfold len in Hi.
  rewrite <- (Z2Nat.id i) at 1 by lia. apply py_get_lookup.
  unfold iloc_from, slice_start. simpl.
  destruct (Z.ltb_spec b 0) as [?|_]; [lia|].
  rewrite lookup_drop, index_lookup by (done || lia). f_equal. lia.
Qed.

Lemma after_get_inv (i cur : Z) :
  0 ≤ i → py_get (index (iloc_from df b)) i = Ok cur →
  cur = b + i ∧ i < len df - b.
Proof using Hwf Hb.
  intros Hi Hget. apply py_get_Ok_lookup in Hget; [|done].
  unfold iloc_from, slice_start in Hget. simpl in Hget.
  destruct (Z.ltb_spec b 0) as [?|_]; [lia|].
  rewrite lookup_drop in Hget.
  pose proof (lookup_lt_Some _ _ _ Hget) as Hlt.
  apply (index_lookup_inv df Hwf) in Hget. unfold len. lia.
Qed.

(** The labels of [df_after_max] are at or after [b], whatever the position
    asked for. *)
Lemma after_get_ge (i cur : Z) :
  py_get (index (iloc_from df b)) i = Ok cur → b ≤ cur.
Proof using Hwf Hb.
  intros [k Hk]%py_get_Ok_elem.
  unfold iloc_from, slice_start in Hk. simpl in Hk.
  destruct (Z.ltb_spec b 0) as [?|_]; [lia|].
  rewrite lookup_drop in Hk.
  pose proof (lookup_lt_Some _ _ _ Hk) as Hlt.
  apply (index_lookup_inv df Hwf) in Hk. lia.
Qed.

(** Every slice a scan reads is centred on a label of [df_after_max]. *)
Lemma reads_centred (after : DataFrame) (rng : list Z) (lo hi : Z) :
  (lo, hi) ∈ (balance_scan df after w threshold rng).1 →
  ∃ i cur, i ∈ rng ∧ py_get (index after) i = Ok cur ∧
           lo = cur - w ∧ hi = cur + w.
Proof.
  induction rng as [|i rng IH]; simpl.
  - by intros ?%elem_of_nil.
  - destruct (py_get (index after) i) as [cur|e] eqn:Eget; simpl.
    + assert (∃ i0 cur0, i0 ∈ i :: rng ∧ py_get (index after) i0 = Ok cur0 ∧
                cur - w = cur0 - w ∧ cur + w = cur0 + w) as Hhere.
      { exists i, cur. split; [left|done]. }
      destruct (loc_slice df (cur - w) (cur + w) "force") as [wd|e]; simpl.
      * destruct (std_lt wd threshold); simpl.
        -- by intros [= -> ->]%list_elem_of_singleton.
        -- intros [[= -> ->]|Hin]%elem_of_cons; [done|].
           destruct (IH Hin) as (i0 & cur0 & ? & ? & ? & ?).
           exists i0, cur0. split; [by right|done].
      * by intros [= -> ->]%list_elem_of_singleton.
    + by intros ?%elem_of_nil.
Qed.

Lemma reads_head (after : DataFrame) (rng : list Z) (i cur : Z) :
  py_get (index after) i = Ok cur →
  head (balance_scan df after w threshold (i :: rng)).1
  = Some (cur - w, cur + w).
Proof.
  intros Hget. simpl. rewrite Hget.
  destruct (loc_slice df (cur - w) (cur + w) "force") as [wd|e]; [|done].
  by destruct (std_lt wd threshold).
Qed.

Context (ts fs : list Q).
Context (Ht : data df !! "time" = Some ts).
Context (Hf : data df !! "force" = Some fs).

(** One iteration of the loop, at a position with a full window. *)
Lemma scan_step (i : Z) (rng : list Z) :
  w ≤ i < len df - b - w →
  balance_scan df (iloc_from df b) w threshold (i :: rng)
  = if stable_at fs w threshold (b + i)
    then ([(b + i - w, b + i + w)], Some <$> point_at df (b + i))
    else
      let rest := balance_scan df (iloc_from df b) w threshold rng in
      ((b + i - w, b + i + w) :: rest.1, rest.2).
Proof using Hwf Hb Hw Hf.
  intros Hi. cbn [balance_scan]. rewrite after_get by lia.
  rewrite (loc_slice_window "force" fs) by (done || lia).
  unfold stable_at, closed_window.
  replace (b + i + w + 1 - (b + i - w)) with (2 * w + 1) by lia.
  done.
Qed.

Lemma scan_none (rng : list Z) :
  Forall (λ i, w ≤ i < len df - b - w) rng →
  (∀ i, i ∈ rng → stable_at fs w threshold (b + i) = false) →
  (balance_scan df (iloc_from df b) w threshold rng).2 = Ok None.
Proof using Hwf Hb Hw Hf.
  induction 1 as [|i rng Hi _ IH]; intros Hno; [done|].
  rewrite scan_step by done. rewrite Hno by left. simpl.
  apply IH. intros j Hj. apply Hno. by right.
Qed.

Lemma scan_found (pre post : list Z) (i : Z) (p : KeyPoint) :
  Forall (λ i, w ≤ i < len df - b - w) (pre ++ i :: post) →
  (∀ j, j ∈ pre → stable_at fs w threshold (b + j) = false) →
  stable_at fs w threshold (b + i) = true →
  sample_at ts fs (Z.to_nat (b + i)) = Some p →
  (balance_scan df (iloc_from df b) w threshold (pre ++ i :: post)).2
  = Ok (Some p).
Proof using Hwf Hb Hw Ht Hf.
  intros Hall Hpre Hi Hp. induction pre as [|j pre IH].
  - apply Forall_cons in Hall as [Hv _]. simpl app.
    rewrite scan_step by done. rewrite Hi. simpl.
    rewrite <- (Z2Nat.id (b + i)) by lia.
    by rewrite (point_at_sample df Hwf ts fs _ p).
  - simpl app in *. apply Forall_cons in Hall as [Hv Hall].
    rewrite scan_step by done. rewrite Hpre by left. simpl.
    apply IH; [done|]. intros k Hk. apply Hpre. by right.
Qed.
End scan.

Lemma py_range_split (a b i : Z) :
  a ≤ i < b → py_range a b = py_range a i ++ i :: py_range (i + 1) b.
Proof.
  intros Hi. unfold py_range.
  replace (b - a) with ((i - a) + (b - i)) by lia.
  rewrite seqZ_app by lia. f_equal.
  replace (a + (i - a)) with i by lia.
  rewrite seqZ_cons by lia. f_equal. f_equal; lia.
Qed.

Lemma frame_well_formed (ts fs : list Q) :
  length fs = length ts → well_formed (frame ts fs).
Proof.
  intros Hlen. unfold well_formed, frame, RangeIndex. simpl.
  rewrite length_seqZ, Nat2Z.id. split; [done|].
  intros c col Hc.
  apply lookup_insert_Some in Hc as [[_ <-]|[_ Hc]]; [done|].
  apply lookup_singleton_Some in Hc as [_ <-]. done.
Qed.

Section balance_point.
Context `{!Numeric}.
Context (df : DataFrame) (Hwf : well_formed df).
Context (b w : Z) (Hb : 0 ≤ b) (Hw : 0 ≤ w).
Context (threshold : Q).

(** The positions the loop visits all have a full window. *)
Lemma scan_range_valid :
  Forall (λ i, w ≤ i < len df - b - w)
    (py_range w (len (iloc_from df b) - w)).
Proof using Hb Hw.
  unfold py_range. apply Forall_seqZ. intros i Hi.
  rewrite after_len in Hi by done. lia.
Qed.

Lemma reads_within (lo hi : Z) :
  (lo, hi) ∈ (find_balance_point_reads df b w threshold).1 →
  ∃ i, w ≤ i < len df - b - w ∧ lo = b + i - w ∧ hi = b + i + w.
Proof using Hwf Hb Hw.
  unfold find_balance_point_reads. cbn [fst].
  intros (i & cur & Hi & Hget & -> & ->)%reads_centred.
  pose proof scan_range_valid as Hall.
  rewrite Forall_forall in Hall. specialize (Hall i Hi).
  apply after_get_inv in Hget as [-> _]; [|done|done|lia].
  by exists i.
Qed.

Lemma reads_first :
  2 * w < len df - b →
  head (find_balance_point_reads df b w threshold).1 = Some (b, b + 2 * w).
Proof using Hwf Hb Hw.
  intros Hlong. unfold find_balance_point_reads. cbn [fst].
  rewrite after_len by done.
  rewrite (py_range_split w _ w) by lia.
  replace (py_range w w) with (@nil Z) by (unfold py_range; by rewrite Z.sub_diag).
  cbn [app]. rewrite (reads_head _ _ _ _ _ w (b + w)) by (apply after_get; (done || lia)).
  f_equal. f_equal; lia.
Qed.

Context (ts fs : list Q).
Context (Ht : data df !! "time" = Some ts).
Context (Hf : data df !! "force" = Some fs).

Lemma balance_point_found (c : Z) (p : KeyPoint) :
  b + w ≤ c < len df - w →
  stable_at fs w threshold c = true →
  (∀ c', b + w ≤ c' < c → stable_at fs w threshold c' = false) →
  sample_at ts fs (Z.to_nat c) = Some p →
  find_balance_point df b w threshold = Ok p.
Proof using Hwf Hb Hw Ht Hf.
  intros Hc Hstable Hfirst Hp.
  unfold find_balance_point, find_balance_point_reads. cbn [snd].
  pose proof scan_range_valid as Hall.
  rewrite (py_range_split w _ (c - b)) in * by (rewrite after_len; lia).
  rewrite (scan_found df Hwf b w Hb Hw threshold ts fs Ht Hf _ _ _ p);
    [done|done| | |].
  - intros j Hj. apply Hfirst. unfold py_range in Hj.
    apply elem_of_seqZ in Hj. lia.
  - by replace (b + (c - b)) with c by lia.
  - by replace (b + (c - b)) with c by lia.
Qed.

Lemma balance_point_fallback (p : KeyPoint) :
  (∀ c, b + w ≤ c < len df - w → stable_at fs w threshold c = false) →
  sample_at ts fs (length (index df) - 1) = Some p →
  find_balance_point df b w threshold = Ok p.
Proof using Hwf Hb Hw Ht Hf.
  intros Hno Hp.
  unfold find_balance_point, find_balance_point_reads. cbn [snd].
  pose proof scan_range_valid as Hall.
  rewrite (scan_none df Hwf b w Hb Hw threshold fs Hf); [|done|].
  - simpl.
    assert (length (index df) - 1 < length (index df))%nat as Hlt.
    { unfold sample_at in Hp.
      destruct (ts !! (length (index df) - 1)%nat) eqn:E; [|done].
      apply lookup_lt_Some in E.
      by rewrite (column_length df Hwf _ _ Ht) in E. }
    rewrite (py_get_last _ (Z.of_nat (length (index df) - 1)))
      by (by apply index_lookup).
    simpl. by apply (point_at_sample df Hwf ts fs).
  - intros i Hi. apply Hno. rewrite Forall_forall in Hall.
    specialize (Hall i Hi). simpl in Hall. lia.
Qed.
End balance_point.

(** No slice starts before [b], whatever the sign of the window size. *)
Lemma reads_from_peak `{!Numeric} (df : DataFrame) (b w : Z) (threshold : Q) (lo hi : Z) :
  well_formed df → 0 ≤ b →
  (lo, hi) ∈ (find_balance_point_reads df b w threshold).1 → b ≤ lo.
Proof.
  intros Hwf Hb Hin. destruct (Z.le_gt_cases 0 w) as [Hw|Hw].
  - apply reads_within in Hin as (i & Hi & -> & _); [lia|done..].
  - unfold find_balance_point_reads in Hin. cbn [fst] in Hin.
    apply reads_centred in Hin as (i & cur & _ & Hget & -> & _).
    apply after_get_ge in Hget; [lia|done..].
Qed.

(** ** Extremal positions *)

Section extremum.
Context (better : Q → Q → bool) (lt le : Q → Q → Prop).
Context (better_true : ∀ x y, better x y = true → lt x y).
Context (better_false : ∀ x y, better x y = false → le y x).
Context (le_refl : ∀ x, le x x).
Context (lt_le : ∀ x y, lt x y → le x y).
Context (lt_le_trans : ∀ x y z, lt x y → le y z → lt x z).

Lemma arg_scan_first_best (l pre : list Q) (best_pos : nat) (best : Q) :
  first_best lt le pre best_pos best →
  ∃ x, first_best lt le (pre ++ l)
         (arg_scan better best_pos best (length pre) l) x.
Proof using All.
  revert pre best_pos best.
  induction l as [|x l IH]; intros pre best_pos best (Hbest & Hle & Hlt).
  - rewrite app_nil_r. by exists best.
  - pose proof (lookup_lt_Some _ _ _ Hbest) as Hpos.
    rewrite cons_middle, app_assoc. simpl.
    replace (S (length pre)) with (length (pre ++ [x]))
      by (rewrite length_app; simpl; lia).
    destruct (better x best) eqn:Ebetter; apply IH; repeat split.
    + by rewrite lookup_app_r, Nat.sub_diag by lia.
    + intros j y [Hj|[_ Hj]]%lookup_app_Some.
      * apply lt_le, (lt_le_trans _ best); eauto.
      * destruct (j - length pre)%nat; [|done].
        injection Hj as <-. apply le_refl.
    + intros j y Hj Hy. rewrite lookup_app_l in Hy by done.
      apply (lt_le_trans _ best); eauto.
    + by rewrite lookup_app_l.
    + intros j y [Hj|[_ Hj]]%lookup_app_Some; [eauto|].
      destruct (j - length pre)%nat; [|done].
      injection Hj as <-. eauto.
    + intros j y Hj Hy. rewrite lookup_app_l in Hy by lia. eauto.
Qed.

Lemma arg_scan_head (x : Q) (l : list Q) :
  ∃ y, first_best lt le (x :: l) (arg_scan better 0%nat x 1%nat l) y.
Proof using All.
  apply (arg_scan_first_best l [x] 0%nat x). repeat split.
  - intros [|j] y; simpl; [|done]. intros [= <-]. apply le_refl.
  - intros j y Hj. lia.
Qed.
End extremum.

Lemma Qltb_true (x y : Q) : Qltb x y = true → (x < y)%Q.
Proof.
  unfold Qltb. intros H%negb_true_iff. apply Qnot_le_lt. intros Hle.
  apply Qle_bool_iff in Hle. congruence.
Qed.

Lemma Qltb_false (x y : Q) : Qltb x y = false → (y <= x)%Q.
Proof. unfold Qltb. intros H%negb_false_iff. by apply Qle_bool_iff. Qed.

Lemma Qltb_lt (x y : Q) : (x < y)%Q → Qltb x y = true.
Proof.
  intros Hlt. destruct (Qltb x y) eqn:E; [done|].
  apply Qltb_false in E. by apply Qle_not_lt in E.
Qed.

Lemma argmin_first_min (l : list Q) :
  l ≠ [] → ∃ a x, argmin l = Some a ∧ first_min l a x.
Proof.
  destruct l as [|x l]; [done|]. intros _. simpl.
  destruct (arg_scan_head Qltb Qlt Qle) with (x := x) (l := l) as [y Hy].
  - apply Qltb_true.
  - apply Qltb_false.
  - apply Qle_refl.
  - apply Qlt_le_weak.
  - apply Qlt_le_trans.
  - by eexists _, y.
Qed.

Lemma argmax_first_max (l : list Q) :
  l ≠ [] → ∃ a x, argmax l = Some a ∧ first_max l a x.
Proof.
  destruct l as [|x l]; [done|]. intros _. simpl.
  destruct (arg_scan_head (λ a b, Qltb b a)
              (λ x y, (y < x)%Q) (λ x y, (y <= x)%Q))
    with (x := x) (l := l) as [y Hy].
  - intros ??. apply Qltb_true.
  - intros ??. apply Qltb_false.
  - apply Qle_refl.
  - intros ??. apply Qlt_le_weak.
  - intros a c d Hca Hdc. by apply Qle_lt_trans with c.
  - by eexists _, y.
Qed.

(** ** The key points of a frame *)

Section key_points.
Context `{!Numeric}.
Context (df : DataFrame) (Hwf : well_formed df).
Context (ts fs : list Q).
Context (Ht : data df !! "time" = Some ts).
Context (Hf : data df !! "force" = Some fs).

Lemma idx_of_position (a : nat) :
  (a < length (index df))%nat → idx_of df (Some a) = Ok (Z.of_nat a).
Proof using Hwf. intros Ha. by apply py_get_lookup, index_lookup. Qed.

(** The loop either runs to its end or returns a sample it visited. *)
Lemma scan_total (b w : Z) (threshold : Q) (rng : list Z) :
  0 ≤ b → 0 ≤ w →
  Forall (λ i, w ≤ i < len df - b - w) rng →
  (balance_scan df (iloc_from df b) w threshold rng).2 = Ok None ∨
  ∃ i p, i ∈ rng ∧ sample_at ts fs (Z.to_nat (b + i)) = Some p ∧
         (balance_scan df (iloc_from df b) w threshold rng).2 = Ok (Some p).
Proof using Hwf Ht Hf.
  intros Hb Hw. induction 1 as [|i rng Hi _ IH]; [by left|].
  rewrite (scan_step df Hwf b w Hb Hw threshold fs Hf) by done.
  destruct (stable_at fs w threshold (b + i)).
  - right. unfold len in Hi.
    destruct (sample_at_is_Some df Hwf ts fs (Z.to_nat (b + i)) Ht Hf)
      as [p Hp]; [lia|].
    exists i, p. split; [left|]. split; [done|]. simpl.
    rewrite <- (Z2Nat.id (b + i)) by lia.
    by rewrite (point_at_sample df Hwf ts fs _ p).
  - simpl. destruct IH as [IH|(j & p & Hj & Hp & IH)]; [by left|].
    right. exists j, p. split; [by right|done].
Qed.

Lemma find_balance_point_total (b w : Z) (threshold : Q) :
  0 ≤ b < len df → 0 ≤ w →
  ∃ (c : nat) (p : KeyPoint),
    b ≤ Z.of_nat c < len df ∧ sample_at ts fs c = Some p ∧
    find_balance_point df b w threshold = Ok p.
Proof using Hwf Ht Hf.
  intros Hb Hw. unfold find_balance_point, find_balance_point_reads.
  cbn [snd].
  pose proof (scan_range_valid df b w (proj1 Hb) Hw) as Hall.
  destruct (scan_total b w threshold _ (proj1 Hb) Hw Hall)
    as [->|(i & p & Hi & Hp & ->)].
  - simpl. unfold len in Hb.
    destruct (sample_at_is_Some df Hwf ts fs (length (index df) - 1) Ht Hf)
      as [p Hp]; [lia|].
    exists (length (index df) - 1)%nat, p. unfold len.
    split; [lia|]. split; [done|].
    rewrite (py_get_last _ (Z.of_nat (length (index df) - 1)))
      by (apply index_lookup; (done || lia)).
    simpl. by apply (point_at_sample df Hwf ts fs).
  - rewrite Forall_forall in Hall. specialize (Hall i Hi). simpl in Hall.
    exists (Z.to_nat (b + i)), p. split; [lia|]. done.
Qed.

(** What [key_points] returns on a non-empty series. *)
Lemma key_points_Ok :
  fs ≠ [] →
  ∃ (a b c : nat) (pa pb pc : KeyPoint),
    argmin fs = Some a ∧ argmax fs = Some b ∧
    sample_at ts fs a = Some pa ∧ sample_at ts fs b = Some pb ∧
    sample_at ts fs c = Some pc ∧
    (b ≤ c < length fs)%nat ∧
    find_balance_point df (Z.of_nat b)
      default_window_size default_std_threshold = Ok pc ∧
    key_points df
    = Ok {| A := pa; B := pb; C := pc; stats := derived_stats pa pb pc |}.
Proof using Hwf Ht Hf.
  intros Hne.
  pose proof (column_length df Hwf _ _ Hf) as Hlen.
  destruct (argmin_first_min fs Hne) as (a & xa & Ha & Hxa & _).
  destruct (argmax_first_max fs Hne) as (b & xb & Hb & Hxb & _).
  apply lookup_lt_Some in Hxa, Hxb.
  destruct (sample_at_is_Some df Hwf ts fs a Ht Hf) as [pa Hpa]; [lia|].
  destruct (sample_at_is_Some df Hwf ts fs b Ht Hf) as [pb Hpb]; [lia|].
  destruct (find_balance_point_total (Z.of_nat b) default_window_size
              default_std_threshold) as (c & pc & Hc & Hpc & Hfind).
  { unfold len. lia. }
  { done. }
  exists a, b, c, pa, pb, pc. unfold len in Hc.
  repeat (split; [done || lia|]).
  unfold key_points, idxmin, idxmax, column. rewrite Hf. simpl.
  rewrite Ha, Hb, !idx_of_position by lia. simpl.
  rewrite (point_at_sample df Hwf ts fs a pa),
          (point_at_sample df Hwf ts fs b pb) by done.
  simpl. by rewrite Hfind.
Qed.

Lemma key_points_empty : fs = [] → key_points df = Raise ValueError.
Proof using Hf.
  intros ->. unfold key_points, idxmin, column. by rewrite Hf.
Qed.
End key_points.

(** ** The column check and the warnings *)

Lemma required_present (df : DataFrame) :
  required_columns ⊆ columns df ↔
  "time" ∈ columns df ∧ "force" ∈ columns df.
Proof. unfold required_columns. set_solver. Qed.

Lemma foldl_warn_missing (cols : list string) (pg : page) :
  foldl warn_missing pg cols = pg ++ (cols ≫= warnings_for).
Proof.
  revert pg. induction cols as [|col cols IH]; intros pg; simpl.
  - by rewrite app_nil_r.
  - rewrite IH. unfold warn_missing, warnings_for, st_warning.
    repeat case_decide; simpl; by rewrite <- ?app_assoc.
Qed.

Lemma process_present `{!Numeric} (iter : gset string → list string) (df : DataFrame)
    (pg : page) (ts fs : list Q) :
  data df !! "time" = Some ts → data df !! "force" = Some fs →
  process_force_data_with iter df pg
  = (points ← key_points df; Ok (df, Some points), pg).
Proof.
  intros Ht Hf. unfold process_force_data_with.
  rewrite decide_True; [done|].
  apply required_present. unfold columns.
  split; apply elem_of_dom; by eexists.
Qed.

Lemma process_missing `{!Numeric} (iter : gset string → list string) (df : DataFrame)
    (pg : page) :
  ¬ required_columns ⊆ columns df →
  process_force_data_with iter df pg
  = (Ok (df, None),
     pg ++ (iter (required_columns ∖ columns df) ≫= warnings_for)).
Proof.
  intros Hmiss. unfold process_force_data_with.
  rewrite decide_False by done. by rewrite foldl_warn_missing.
Qed.

Lemma missing_elements (cols : gset string) :
  elements (required_columns ∖ cols) ≫= warnings_for
  ≡ₚ (if decide ("time" ∈ cols) then [] else [time_warning]) ++
     (if decide ("force" ∈ cols) then [] else [force_warning]).
Proof.
  unfold required_columns.
  destruct (decide ("time" ∈ cols)) as [Ht|Ht];
    destruct (decide ("force" ∈ cols)) as [Hf|Hf].
  - replace (({[ "time"; "force" ]} : gset string) ∖ cols)
      with (∅ : gset string) by set_solver.
    by rewrite elements_empty.
  - replace (({[ "time"; "force" ]} : gset string) ∖ cols)
      with ({[ "force" ]} : gset string) by set_solver.
    by rewrite elements_singleton.
  - replace (({[ "time"; "force" ]} : gset string) ∖ cols)
      with ({[ "time" ]} : gset string) by set_solver.
    by rewrite elements_singleton.
  - replace (({[ "time"; "force" ]} : gset string) ∖ cols)
      with ({[ "time" ]} ∪ {[ "force" ]} : gset string) by set_solver.
    rewrite elements_union_singleton by set_solver.
    by rewrite elements_singleton.
Qed.

(** ** Standard deviation without rounding *)

Lemma Qsquare_nonneg (x : Q) : (0 <= Qsquare x)%Q.
Proof.
  unfold Qsquare. destruct (Qlt_le_dec x 0) as [Hneg|Hpos].
  - assert (x * x == (- x) * (- x))%Q as -> by ring.
    apply Qmult_le_0_compat; lra.
  - by apply Qmult_le_0_compat.
Qed.

Lemma Qsum_squares_nonneg (avg : Q) (l : list Q) :
  (0 <= Qsum ((λ x, Qsquare (avg - x)) <$> l))%Q.
Proof.
  induction l as [|x l IH]; simpl; [done|].
  apply (Qle_trans _ (0 + 0)); [apply Qle_refl|].
  apply Qplus_le_compat; [apply Qsquare_nonneg|exact IH].
Qed.

Lemma var_nonneg (l : list Q) (v : Q) : var l = Some v → (0 <= v)%Q.
Proof.
  unfold var. destruct (Z.leb_spec (Z.of_nat (length l)) 1) as [|Hlen];
    [done|].
  intros [= <-]. apply Qle_shift_div_l.
  - change 0%Q with (inject_Z 0). rewrite <- Zlt_Qlt. lia.
  - rewrite Qmult_0_l. apply Qsum_squares_nonneg.
Qed.

(** [Std_ltb] decides the comparison of the square root with the
    threshold. *)
Lemma Std_ltb_sqrt (v threshold : Q) :
  (0 <= v)%Q →
  Std_ltb (Sqrt v) threshold = true ↔ (sqrt (Q2R v) < Q2R threshold)%R.
Proof.
  intros Hv%Qle_Rle. rewrite RMicromega.Q2R_0 in Hv. simpl. split.
  - intros [Hpos%Qltb_true%Qlt_Rlt Hlt%Qltb_true%Qlt_Rlt]%andb_true_iff.
    rewrite RMicromega.Q2R_0 in Hpos. rewrite Q2R_mult in Hlt.
    rewrite <- (sqrt_square (Q2R threshold)) by lra.
    by apply sqrt_lt_1_alt.
  - intros Hlt. pose proof (sqrt_pos (Q2R v)) as Hs.
    apply andb_true_iff. split; apply Qltb_lt, Rlt_Qlt.
    + rewrite RMicromega.Q2R_0. lra.
    + rewrite Q2R_mult. rewrite <- (sqrt_sqrt (Q2R v)) by done. nra.
Qed.

(** The test of [exact_numeric] on a window, read over the reals: the
    window has at least two cells and the square root of its variance is
    below the threshold. *)
Lemma Std_ltb_std (l : list Q) (threshold : Q) :
  Std_ltb (std l) threshold = true ↔
  ∃ r, Std_real (std l) = Some r ∧ (r < Q2R threshold)%R.
Proof.
  unfold std. destruct (var l) as [v|] eqn:Ev.
  - rewrite Std_ltb_sqrt by (by apply (var_nonneg l)). simpl. split.
    + intros Hlt. by eexists.
    + by intros (r & [= <-] & Hlt).
  - simpl. split; [done|]. by intros (r & [=] & _).
Qed.

Lemma Q2R_Qsum (l : list Q) : Q2R (Qsum l) = Rsum (Q2R <$> l).
Proof.
  induction l as [|x l IH]; simpl.
  - apply RMicromega.Q2R_0.
  - by rewrite Q2R_plus, IH.
Qed.

Lemma Q2R_squares (avg : Q) (l : list Q) :
  Q2R (Qsum ((λ x, Qsquare (avg - x)) <$> l))
  = Rsum ((λ x, (x - Q2R avg) * (x - Q2R avg))%R <$> (Q2R <$> l)).
Proof.
  induction l as [|x l IH]; csimpl.
  - apply RMicromega.Q2R_0.
  - rewrite Q2R_plus, IH. unfold Qsquare at 1.
    rewrite Q2R_mult, Q2R_minus. f_equal. ring.
Qed.

Lemma Q2R_of_nat (n : nat) : Q2R (inject_Z (Z.of_nat n)) = INR n.
Proof. unfold Q2R. simpl. rewrite INR_IZR_INZ. field. Qed.

Lemma Q2R_of_nat_pred (n : nat) :
  Q2R (inject_Z (Z.of_nat n - 1)) = (INR n - 1)%R.
Proof. unfold Q2R. simpl. rewrite minus_IZR, INR_IZR_INZ. field. Qed.

Lemma inject_Z_nonzero (z : Z) : z ≠ 0 → ¬ (inject_Z z == 0)%Q.
Proof. unfold Qeq. simpl. lia. Qed.

(** Without rounding the standard deviation is the sample standard
    deviation of the specification. *)
Lemma Std_real_std (l : list Q) : Std_real (std l) = sample_std l.
Proof.
  unfold std, var, sample_std.
  destruct (Z.leb_spec (Z.of_nat (length l)) 1) as [Hle|Hgt];
    destruct (Nat.ltb_spec (length l) 2) as [Hlt|Hge]; try lia; [done|].
  simpl. do 2 f_equal.
  rewrite Q2R_div by (apply inject_Z_nonzero; lia).
  rewrite Q2R_squares, Q2R_of_nat_pred.
  rewrite Q2R_div by (apply inject_Z_nonzero; lia).
  by rewrite Q2R_Qsum, Q2R_of_nat.
Qed.

(** Without rounding the code's test is the comparison of the
    specification. *)
Lemma stable_at_std_below (fs : list Q) (w : Z) (threshold : Q) (c : Z) :
  @stable_at exact_numeric fs w threshold c = true ↔
  std_below fs w threshold c.
Proof.
  unfold stable_at, std_below. simpl. by rewrite Std_ltb_std, Std_real_std.
Qed.

Lemma not_stable_at_std_below (fs : list Q) (w : Z) (threshold : Q)
    (c : Z) :
  @stable_at exact_numeric fs w threshold c = false ↔
  ¬ std_below fs w threshold c.
Proof.
  rewrite <- stable_at_std_below.
  by destruct (@stable_at exact_numeric fs w threshold c).
Qed.

(** ** Non-decreasing times *)

Lemma nondecreasingb_sound (ts : list Q) :
  nondecreasingb ts = true → nondecreasing ts.
Proof.
  induction ts as [|a ts IH]; intros Hb i j x y Hij Hi Hj.
  - by rewrite lookup_nil in Hi.
  - assert (nondecreasingb ts = true ∧
            ∀ z, ts !! 0%nat = Some z → (a <= z)%Q) as [Hts Hhd].
    { destruct ts as [|z ts]; [done|]. simpl in Hb.
      apply andb_true_iff in Hb as [Haz Hb]. split; [done|].
      intros z' [= <-]. by apply Qle_bool_iff. }
    destruct i as [|i], j as [|j]; simpl in *; try lia.
    + injection Hi as <-. injection Hj as <-. apply Qle_refl.
    + injection Hi as <-.
      destruct (ts !! 0%nat) as [z|] eqn:Ez.
      * apply Qle_trans with z; [by apply Hhd|].
        apply (IH Hts 0%nat j); (done || lia).
      * apply lookup_ge_None in Ez. apply lookup_lt_Some in Hj. lia.
    + apply (IH Hts i j); (done || lia).
Qed.

Lemma sample_at_fields (ts fs : list Q) (k : nat) (p : KeyPoint) :
  sample_at ts fs k = Some p →
  ts !! k = Some (time p) ∧ fs !! k = Some (force p).
Proof.
  unfold sample_at. destruct (ts !! k); [|done]. destruct (fs !! k); [|done].
  simpl. by intros [= <-].
Qed.

(** * The balance point *)

Example steady_reads :
  find_balance_point_reads steady 2 1 (1 # 2)
  = ([(2, 4); (3, 5)], Ok {| time := 4; force := 9 |}).
Proof. vm_compute. reflexivity. Qed.

Example negative_window_raises :
  find_balance_point steady 2 (-1) 1 = Raise IndexError.
Proof. vm_compute. reflexivity. Qed.



(** C3.  On a non-empty series, when no index with a full window after B
    has a windowed standard deviation below the threshold, or the part from
    B's index on has at most [2 * window_size] samples,
    [find_balance_point] returns the last sample of the whole series.  The
    comparison is the one the code runs, [window_data.std() <
    std_threshold] ([stable_at]), for every instance of [Numeric]. *)
Theorem find_balance_point_fallback_last `{!Numeric} (df : DataFrame)
    (ts fs : list Q) (b w : Z) (threshold : Q) :
  well_formed df →
  data df !! "time" = Some ts → data df !! "force" = Some fs →
  0 < len df → 0 ≤ b → 0 ≤ w →
  (len df - b ≤ 2 * w ∨
   ∀ c, b + w ≤ c < len df - w → stable_at fs w threshold c = false) →
  ∃ p, sample_at ts fs (length (index df) - 1) = Some p ∧
       find_balance_point df b w threshold = Ok p.
Proof.
  intros Hwf Ht Hf Hlen Hb Hw Hcase.
  destruct (sample_at_is_Some df Hwf ts fs (length (index df) - 1) Ht Hf)
    as [p Hp].
  { unfold len in Hlen. lia. }
  exists p. split; [done|].
  apply (balance_point_fallback df Hwf b w Hb Hw threshold ts fs Ht Hf);
    [|done].
  intros c Hc. destruct Hcase as [Hshort|Hno]; [lia|].
  by apply Hno.
Qed.

Lemma find_balance_point_fallback_last_witness :
  ∃ p, sample_at steady_times steady_forces (length (index steady) - 1)
       = Some p ∧
       find_balance_point steady 2 1 0 = Ok p.
Proof.
  apply (find_balance_point_fallback_last steady steady_times steady_forces
           2 1 0).
  - apply frame_well_formed. reflexivity.
  - vm_compute. reflexivity.
  - vm_compute. reflexivity.
  - vm_compute. reflexivity.
  - lia.
  - lia.
  - right. change (len steady) with 7. intros c Hc.
    assert (c = 3 ∨ c = 4 ∨ c = 5) as [-> | [-> | ->]] by lia;
      vm_compute; reflexivity.
Defined.

(** C9.  Every window [current_idx - window_size .. current_idx +
    window_size] that [find_balance_point] reads lies within B's index and
    the last index of the series, and the first one starts at B's index. *)
Theorem scan_windows_after_peak `{!Numeric} (df : DataFrame) (b w : Z) (threshold : Q) :
  well_formed df → 0 ≤ b → 0 ≤ w →
  (∀ lo hi, (lo, hi) ∈ (find_balance_point_reads df b w threshold).1 →
            b ≤ lo ∧ lo ≤ hi ∧ hi ≤ len df - 1) ∧
  (2 * w < len df - b →
   head (find_balance_point_reads df b w threshold).1 = Some (b, b + 2 * w)).
Proof.
  intros Hwf Hb Hw. split.
  - intros lo hi (i & Hi & -> & ->)%reads_within; [lia|done..].
  - by apply reads_first.
Qed.

Lemma scan_windows_after_peak_witness :
  (∀ lo hi, (lo, hi) ∈ (find_balance_point_reads steady 2 1 (1 # 2)).1 →
            2 ≤ lo ∧ lo ≤ hi ∧ hi ≤ len steady - 1) ∧
  (2 * 1 < len steady - 2 →
   head (find_balance_point_reads steady 2 1 (1 # 2)).1 = Some (2, 2 + 2 * 1)).
Proof.
  apply (scan_windows_after_peak steady 2 1 (1 # 2)).
  - apply frame_well_formed. reflexivity.
  - lia.
  - lia.
Defined.

(** C7, as stated, fails: no window the scan reads, for any series, any
    peak index, any window size and any implementation of the arithmetic,
    contains a label below B's index. *)
Lemma no_window_before_peak :
  ¬ ∃ (N : Numeric) (df : DataFrame) (b w : Z) (threshold : Q) (lo hi l : Z),
      well_formed df ∧ 0 ≤ b ∧
      (lo, hi) ∈ (@find_balance_point_reads N df b w threshold).1 ∧
      lo ≤ l ≤ hi ∧ l < b.
Proof.
  intros (N & df & b & w & threshold & lo & hi & l & Hwf & Hb & Hin & Hl & Hlt).
  apply reads_from_peak in Hin; [lia|done..].
Qed.

(** C7, amended.  Every window the scan reads starts at or after B's index,
    and is the window of positions [i - window_size .. i + window_size] of
    the part of the series from B on: re-basing the indices to that part
    gives the same cells. *)
Theorem window_rebased `{!Numeric} (df : DataFrame) (fs : list Q) (b w : Z)
    (threshold : Q) (lo hi : Z) :
  well_formed df → data df !! "force" = Some fs → 0 ≤ b → 0 ≤ w →
  (lo, hi) ∈ (find_balance_point_reads df b w threshold).1 →
  b ≤ lo ∧
  ∃ i sub, column (iloc_from df b) "force" = Ok sub ∧
           w ≤ i ∧ lo = b + (i - w) ∧ hi = b + (i + w) ∧
           loc_slice df lo hi "force" = Ok (closed_window sub i w).
Proof.
  intros Hwf Hf Hb Hw (i & Hi & -> & ->)%reads_within; [|done..].
  split; [lia|].
  exists i, (drop (Z.to_nat b) fs). unfold len in Hi.
  repeat split; try lia.
  - unfold column, iloc_from, slice_start. simpl.
    rewrite lookup_fmap, Hf. simpl.
    destruct (Z.ltb_spec b 0) as [?|_]; [lia|].
    by replace (Z.to_nat (b `min` Z.of_nat (length (index df))))
      with (Z.to_nat b) by lia.
  - rewrite (loc_slice_window df Hwf "force" fs) by (done || lia).
    unfold closed_window. rewrite drop_drop. do 2 f_equal.
    + lia.
    + f_equal. lia.
Qed.

Lemma window_rebased_witness :
  2 ≤ 3 ∧
  ∃ i sub, column (iloc_from steady 2) "force" = Ok sub ∧
           1 ≤ i ∧ 3 = 2 + (i - 1) ∧ 5 = 2 + (i + 1) ∧
           loc_slice steady 3 5 "force" = Ok (closed_window sub i 1).
Proof.
  apply (window_rebased steady steady_forces 2 1 (1 # 2) 3 5).
  - apply frame_well_formed. reflexivity.
  - vm_compute. reflexivity.
  - lia.
  - lia.
  - vm_compute. right. left.
Defined.

(** * The analysis of a frame *)

Example jump_points :
  (process_force_data jump []).1
  = Ok (jump,
        Some {| A := {| time := inject_Z 0; force := 0 |};
                B := {| time := inject_Z 1; force := 100 |};
                C := {| time := inject_Z 32; force := 50 |};
                stats := {| RFD := 100 # 1; recovery_time := 31 # 1 |} |}).
Proof. vm_compute. reflexivity. Qed.

(** C2.  On a non-empty series with both columns, point A is the sample at
    the first index of the least force and point B the sample at the first
    index of the greatest force; every force of the series lies between
    theirs. *)
Theorem extrema_first_occurrence `{!Numeric} (df : DataFrame) (ts fs : list Q)
    (pg : page) :
  well_formed df →
  data df !! "time" = Some ts → data df !! "force" = Some fs →
  fs ≠ [] →
  ∃ (pts : Points) (a b : nat),
    process_force_data df pg = (Ok (df, Some pts), pg) ∧
    sample_at ts fs a = Some (A pts) ∧ sample_at ts fs b = Some (B pts) ∧
    (∀ j y, fs !! j = Some y →
            (force (A pts) <= y)%Q ∧ (y <= force (B pts))%Q) ∧
    (∀ j y, (j < a)%nat → fs !! j = Some y → (force (A pts) < y)%Q) ∧
    (∀ j y, (j < b)%nat → fs !! j = Some y → (y < force (B pts))%Q).
Proof.
  intros Hwf Ht Hf Hne.
  destruct (key_points_Ok df Hwf ts fs Ht Hf Hne)
    as (a & b & c & pa & pb & pc & Ha & Hb & Hpa & Hpb & _ & _ & _ & Hkp).
  destruct (argmin_first_min fs Hne) as (a' & xa & Ha' & Hxa & Hmin & Hfirst).
  destruct (argmax_first_max fs Hne) as (b' & xb & Hb' & Hxb & Hmax & Hlast).
  assert (a' = a) as -> by congruence. assert (b' = b) as -> by congruence.
  apply sample_at_fields in Hpa as Hfa. apply sample_at_fields in Hpb as Hfb.
  destruct Hfa as [_ Hfa], Hfb as [_ Hfb].
  assert (xa = force pa) as -> by congruence.
  assert (xb = force pb) as -> by congruence.
  eexists _, a, b. unfold process_force_data.
  rewrite (process_present _ df pg ts fs Ht Hf), Hkp. simpl.
  repeat split; eauto.
Qed.

Lemma extrema_first_occurrence_witness :
  ∃ (pts : Points) (a b : nat),
    process_force_data steady [] = (Ok (steady, Some pts), []) ∧
    sample_at steady_times steady_forces a = Some (A pts) ∧
    sample_at steady_times steady_forces b = Some (B pts) ∧
    (∀ j y, steady_forces !! j = Some y →
            (force (A pts) <= y)%Q ∧ (y <= force (B pts))%Q) ∧
    (∀ j y, (j < a)%nat → steady_forces !! j = Some y →
            (force (A pts) < y)%Q) ∧
    (∀ j y, (j < b)%nat → steady_forces !! j = Some y →
            (y < force (B pts))%Q).
Proof.
  apply (extrema_first_occurrence steady steady_times steady_forces []).
  - apply frame_well_formed. reflexivity.
  - vm_compute. reflexivity.
  - vm_compute. reflexivity.
  - discriminate.
Defined.

(** On a frame that carries each of the two labels once, as every
    [DataFrame] does, and has at least one sample, [process_force_data]
    returns, and each of A, B and C is the (time, force) pair of a sample of
    the series; on the empty series the extremum lookup raises. *)
Lemma key_points_are_samples `{!Numeric} (df : DataFrame) (ts fs : list Q)
    (pg : page) :
  well_formed df →
  data df !! "time" = Some ts → data df !! "force" = Some fs →
  match fs with
  | [] => process_force_data df pg = (Raise ValueError, pg)
  | _ :: _ =>
      ∃ (pts : Points) (a b c : nat),
        process_force_data df pg = (Ok (df, Some pts), pg) ∧
        sample_at ts fs a = Some (A pts) ∧
        sample_at ts fs b = Some (B pts) ∧
        sample_at ts fs c = Some (C pts)
  end.
Proof.
  intros Hwf Ht Hf. unfold process_force_data.
  rewrite (process_present _ df pg ts fs Ht Hf).
  destruct fs as [|f fs'].
  - by rewrite (key_points_empty df [] Hf).
  - destruct (key_points_Ok df Hwf ts (f :: fs') Ht Hf)
      as (a & b & c & pa & pb & pc & _ & _ & Hpa & Hpb & Hpc & _ & _ & ->);
      [done|].
    by eexists _, a, b, c.
Qed.

Lemma key_points_are_samples_witness :
  ∃ (pts : Points) (a b c : nat),
    process_force_data jump [] = (Ok (jump, Some pts), []) ∧
    sample_at jump_times jump_forces a = Some (A pts) ∧
    sample_at jump_times jump_forces b = Some (B pts) ∧
    sample_at jump_times jump_forces c = Some (C pts).
Proof.
  apply (key_points_are_samples jump jump_times jump_forces []).
  - apply frame_well_formed. reflexivity.
  - vm_compute. reflexivity.
  - vm_compute. reflexivity.
Defined.

(** Without rounding the quotient of the two differences is that of the
    rationals. *)
Lemma exact_quotient (fb fa tb ta : Q) :
  ¬ (tb == ta)%Q →
  @np_div exact_numeric (@np_sub exact_numeric "force" fb fa)
                        (@np_sub exact_numeric "time" tb ta)
  = Finite ((fb - fa) / (tb - ta)).
Proof.
  intros Hdiff. simpl. unfold exact_sub, exact_div.
  destruct (Qeq_bool (tb - ta) 0) eqn:Ezero; [|done].
  apply Qeq_bool_iff in Ezero. destruct Hdiff. lra.
Qed.

(** In [int64] the difference of the two forces of [steep] wraps, and RFD
    is negative although the force rises. *)
Example rfd_wraps_in_int64 :
  RFD <$> (stats <$>
    (@key_points (int64_numeric exact_numeric) steep))
  = Ok (Finite (inject_Z (-446744073709551616))).
Proof. vm_compute. reflexivity. Qed.



(** Without overflow every difference keeps its sign. *)
Lemma exact_keeps_order (ts : list Q) : @sub_keeps_order exact_numeric ts.
Proof. intros x y _ _ Hxy. simpl. lra. Qed.

Lemma is_int64_floor (x : Q) :
  is_int64 x = true →
  (x == inject_Z (Qfloor x))%Q ∧ - 2 ^ 63 ≤ Qfloor x < 2 ^ 63.
Proof.
  unfold is_int64.
  intros [Hx%Qeq_bool_iff [Hlo%Z.leb_le Hhi%Z.ltb_lt]%andb_true_iff]
    %andb_true_iff.
  done.
Qed.

Lemma is_int64_inject_Z (z : Z) :
  - 2 ^ 63 ≤ z < 2 ^ 63 → is_int64 (inject_Z z) = true.
Proof.
  intros Hz. unfold is_int64. rewrite Qfloor_Z.
  apply andb_true_iff. split; [by apply Qeq_bool_iff|].
  apply andb_true_iff. split; [apply Z.leb_le|apply Z.ltb_lt]; lia.
Qed.

(** In [int64] a difference keeps its sign when the times of the series
    span less than [2^63]. *)
Lemma int64_keeps_order (N : Numeric) (ts : list Q) :
  (∀ x, x ∈ ts → is_int64 x = true) →
  (∀ x y, x ∈ ts → y ∈ ts → (y - x < inject_Z (2 ^ 63))%Q) →
  @sub_keeps_order (int64_numeric N) ts.
Proof.
  intros Hint Hspan x y Hx Hy Hxy. simpl. unfold int64_sub.
  rewrite (Hint x Hx), (Hint y Hy). simpl.
  destruct (is_int64_floor x (Hint x Hx)) as [Ex _].
  destruct (is_int64_floor y (Hint y Hy)) as [Ey _].
  pose proof (Hspan x y Hx Hy) as Hlt.
  rewrite Ex, Ey in Hxy. rewrite <- Zle_Qle in Hxy.
  rewrite Ex, Ey in Hlt. unfold Qminus in Hlt.
  rewrite <- inject_Z_opp, <- inject_Z_plus, <- Zlt_Qlt in Hlt.
  change 0%Q with (inject_Z 0). rewrite <- Zle_Qle.
  unfold wrap64. rewrite Z.mod_small by lia. lia.
Qed.

(** C6, as stated, fails: on two samples whose [int64] times are
    [-9 * 10^18] and [9 * 10^18], which do not decrease, B is the first
    sample, C the last, and the recovery time wraps to a negative number. *)
Lemma recovery_time_wraps :
  nondecreasing wide_times ∧
  ∃ pts : Points,
    @process_force_data (int64_numeric exact_numeric) wide []
    = (Ok (wide, Some pts), []) ∧
    time (B pts) = inject_Z (-9000000000000000000) ∧
    time (C pts) = inject_Z 9000000000000000000 ∧
    recovery_time (stats pts) = Finite (inject_Z (-446744073709551616)) ∧
    ¬ scalar_nonneg (recovery_time (stats pts)).
Proof.
  split.
  - apply nondecreasingb_sound. vm_compute. reflexivity.
  - eexists. split; [vm_compute; reflexivity|]. simpl.
    repeat split. vm_compute. intros Hle. apply Hle. reflexivity.
Qed.

(** C6, amended.  Point C is a sample at an index at or after B's index,
    also when it is the last sample, and the recovery time is [C.time -
    B.time] as numpy computes it; hence on a series whose times never
    decrease and whose time differences do not overflow the recovery time
    is not negative. *)
Theorem balance_after_peak `{!Numeric} (df : DataFrame) (ts fs : list Q)
    (pg : page) :
  well_formed df →
  data df !! "time" = Some ts → data df !! "force" = Some fs →
  fs ≠ [] →
  ∃ (pts : Points) (b c : nat),
    process_force_data df pg = (Ok (df, Some pts), pg) ∧
    argmax fs = Some b ∧
    sample_at ts fs b = Some (B pts) ∧ sample_at ts fs c = Some (C pts) ∧
    (b ≤ c < length fs)%nat ∧
    recovery_time (stats pts) = np_sub "time" (time (C pts)) (time (B pts)) ∧
    (nondecreasing ts → sub_keeps_order ts →
     scalar_nonneg (recovery_time (stats pts))).
Proof.
  intros Hwf Ht Hf Hne.
  destruct (key_points_Ok df Hwf ts fs Ht Hf Hne)
    as (a & b & c & pa & pb & pc & _ & Hb & _ & Hpb & Hpc & Hbc & _ & Hkp).
  eexists _, b, c. unfold process_force_data.
  rewrite (process_present _ df pg ts fs Ht Hf), Hkp. simpl.
  repeat (split; [done|]).
  intros Hmono Hsub.
  apply sample_at_fields in Hpb as [Htb _].
  apply sample_at_fields in Hpc as [Htc _].
  apply Hsub.
  - by apply list_elem_of_lookup_2 in Htb.
  - by apply list_elem_of_lookup_2 in Htc.
  - exact (Hmono b c _ _ (proj1 Hbc) Htb Htc).
Qed.

Lemma balance_after_peak_witness :
  ∃ (pts : Points) (b c : nat),
    @process_force_data (int64_numeric exact_numeric) jump []
    = (Ok (jump, Some pts), []) ∧
    argmax jump_forces = Some b ∧
    sample_at jump_times jump_forces b = Some (B pts) ∧
    sample_at jump_times jump_forces c = Some (C pts) ∧
    (b ≤ c < length jump_forces)%nat ∧
    recovery_time (stats pts)
    = @np_sub (int64_numeric exact_numeric) "time"
        (time (C pts)) (time (B pts)) ∧
    scalar_nonneg (recovery_time (stats pts)).
Proof.
  destruct (@balance_after_peak (int64_numeric exact_numeric)
              jump jump_times jump_forces [])
    as (pts & b & c & Hrun & Hb & Hpb & Hpc & Hbc & Hrec & Hpos).
  - apply frame_well_formed. reflexivity.
  - vm_compute. reflexivity.
  - vm_compute. reflexivity.
  - discriminate.
  - exists pts, b, c. repeat (split; [done || lia|]).
    apply Hpos.
    + apply nondecreasingb_sound. vm_compute. reflexivity.
    + apply int64_keeps_order.
      * intros x (z & -> & Hz%elem_of_seqZ)%list_elem_of_fmap.
        apply is_int64_inject_Z. lia.
      * intros x y (z & -> & Hz%elem_of_seqZ)%list_elem_of_fmap
          (z' & -> & Hz'%elem_of_seqZ)%list_elem_of_fmap.
        unfold Qminus. rewrite <- inject_Z_opp, <- inject_Z_plus, <- Zlt_Qlt.
        lia.
Defined.

(** * Missing columns *)

Example no_force_run :
  process_force_data no_force [] = (Ok (no_force, None), [force_warning]).
Proof. vm_compute. reflexivity. Qed.

Lemma names_time_warning :
  names time_warning "time" = true ∧ names time_warning "force" = false.
Proof. split; vm_compute; reflexivity. Qed.

Lemma names_force_warning :
  names force_warning "force" = true ∧ names force_warning "time" = false.
Proof. split; vm_compute; reflexivity. Qed.

(** C4, as stated, fails: the value returned carries no error and names no
    role.  Two frames that miss different roles both return their frame
    with [None], and nothing else. *)
Lemma missing_roles_not_returned :
  required_columns ∖ columns no_force = {[ "force" ]} ∧
  required_columns ∖ columns no_roles = {[ "time"; "force" ]} ∧
  (process_force_data no_force []).1 = Ok (no_force, None) ∧
  (process_force_data no_roles []).1 = Ok (no_roles, None) ∧
  snd <$> (process_force_data no_force []).1
  = snd <$> (process_force_data no_roles []).1.
Proof.
  split; [|split]; [apply (bool_decide_unpack _); vm_compute; exact I..|].
  vm_compute. done.
Qed.

(** C4, amended.  When the [time] or the [force] column is absent,
    [process_force_data] does not raise and returns its frame with [None]
    for the points, whichever role is missing.  The absent roles are named
    on the page, one warning for each, in whatever order the set of missing
    columns is iterated. *)
Theorem missing_columns_reported `{!Numeric} (iter : gset string → list string)
    (df : DataFrame) (pg : page) :
  iteration_order iter →
  "time" ∉ columns df ∨ "force" ∉ columns df →
  ∃ ws : list string,
    process_force_data_with iter df pg = (Ok (df, None), pg ++ ws) ∧
    ws ≡ₚ (if decide ("time" ∈ columns df) then [] else [time_warning]) ++
          (if decide ("force" ∈ columns df) then [] else [force_warning]) ∧
    ∀ role, role ∈ required_columns →
      role ∉ columns df ↔ ∃ msg, msg ∈ ws ∧ names msg role = true.
Proof.
  intros Hiter Hmiss.
  exists (iter (required_columns ∖ columns df) ≫= warnings_for).
  assert (iter (required_columns ∖ columns df) ≫= warnings_for
          ≡ₚ (if decide ("time" ∈ columns df) then [] else [time_warning]) ++
             (if decide ("force" ∈ columns df) then [] else [force_warning]))
    as Hws.
  { rewrite (Hiter _). apply missing_elements. }
  split; [|split; [done|]].
  - apply process_missing. rewrite required_present. tauto.
  - intros role Hrole. setoid_rewrite Hws.
    destruct names_time_warning as [Htt Htf].
    destruct names_force_warning as [Hff Hft].
    assert (role = "time" ∨ role = "force") as [-> | ->]
      by (unfold required_columns in Hrole; set_solver).
    + destruct (decide ("time" ∈ columns df)) as [Hin|Hout];
        destruct (decide ("force" ∈ columns df)); simpl; split;
        try done; try (intros _; exists time_warning; set_solver).
      * intros (msg & []%elem_of_nil & _).
      * intros (msg & ->%list_elem_of_singleton & Hn). congruence.
    + destruct (decide ("time" ∈ columns df));
        destruct (decide ("force" ∈ columns df)) as [Hin|Hout]; simpl; split;
        try done; try (intros _; exists force_warning; set_solver).
      * intros (msg & []%elem_of_nil & _).
      * intros (msg & ->%list_elem_of_singleton & Hn). congruence.
Qed.

Lemma missing_columns_reported_witness :
  ∃ ws : list string,
    process_force_data_with elements no_roles [] = (Ok (no_roles, None), [] ++ ws) ∧
    ws ≡ₚ (if decide ("time" ∈ columns no_roles) then [] else [time_warning]) ++
          (if decide ("force" ∈ columns no_roles) then []
           else [force_warning]) ∧
    ∀ role, role ∈ required_columns →
      role ∉ columns no_roles ↔ ∃ msg, msg ∈ ws ∧ names msg role = true.
Proof.
  apply (missing_columns_reported elements no_roles []).
  - intros s. reflexivity.
  - left. apply (bool_decide_unpack _). vm_compute. exact I.
Defined.

(** * Further properties of the balance point *)

(** A bounded search for the first index that passes a test. *)
Lemma first_true_or_none (P : Z → bool) (lo : Z) (n : nat) :
  (∀ c, lo ≤ c < lo + Z.of_nat n → P c = false) ∨
  ∃ c, lo ≤ c < lo + Z.of_nat n ∧ P c = true ∧
       ∀ c', lo ≤ c' < c → P c' = false.
Proof.
  induction n as [|n IH].
  - left. intros c Hc. lia.
  - destruct IH as [Hnone|(c & Hc & HP & Hfirst)].
    + destruct (P (lo + Z.of_nat n)) eqn:Elast.
      * right. exists (lo + Z.of_nat n). split; [lia|]. split; [done|].
        intros c' Hc'. apply Hnone. lia.
      * left. intros c Hc.
        destruct (Z.eq_dec c (lo + Z.of_nat n)) as [->|Hne]; [done|].
        apply Hnone. lia.
    + right. exists c. split; [lia|]. done.
Qed.

(** X1.  With a window size that is not negative, [find_balance_point]
    never raises on a non-empty series, whatever the starting index: it
    returns the sample at the first index with a full window after [b] at
    which the test [window_data.std() < std_threshold] passes, and the last
    sample of the series when there is no such index. *)
Theorem find_balance_point_first_stable_or_last `{!Numeric} (df : DataFrame)
    (ts fs : list Q) (b w : Z) (threshold : Q) :
  well_formed df →
  data df !! "time" = Some ts → data df !! "force" = Some fs →
  0 < len df → 0 ≤ b → 0 ≤ w →
  ∃ (c : Z) (p : KeyPoint),
    sample_at ts fs (Z.to_nat c) = Some p ∧
    find_balance_point df b w threshold = Ok p ∧
    ((b + w ≤ c < len df - w ∧ stable_at fs w threshold c = true ∧
      ∀ c', b + w ≤ c' < c → stable_at fs w threshold c' = false) ∨
     (c = len df - 1 ∧
      ∀ c', b + w ≤ c' < len df - w → stable_at fs w threshold c' = false)).
Proof.
  intros Hwf Ht Hf Hlen Hb Hw. unfold len in Hlen.
  destruct (first_true_or_none (stable_at fs w threshold) (b + w)
              (Z.to_nat (len df - w - (b + w))))
    as [Hnone|(c & Hc & Hstable & Hfirst)].
  - destruct (sample_at_is_Some df Hwf ts fs (length (index df) - 1) Ht Hf)
      as [p Hp]; [lia|].
    exists (len df - 1), p. unfold len.
    replace (Z.to_nat (Z.of_nat (length (index df)) - 1))
      with (length (index df) - 1)%nat by lia.
    split; [done|]. split.
    + apply (balance_point_fallback df Hwf b w Hb Hw threshold ts fs Ht Hf);
        [|done].
      intros c Hc. apply Hnone. lia.
    + right. split; [done|]. intros c' Hc'.
      apply Hnone. unfold len in *. lia.
  - assert (b + w ≤ c < len df - w) as Hc' by lia.
    destruct (sample_at_is_Some df Hwf ts fs (Z.to_nat c) Ht Hf) as [p Hp].
    { unfold len in Hc'. lia. }
    exists c, p. split; [done|]. split.
    + by apply (balance_point_found df Hwf b w Hb Hw threshold ts fs Ht Hf c).
    + left. done.
Qed.

Lemma find_balance_point_first_stable_or_last_witness :
  ∃ (c : Z) (p : KeyPoint),
    sample_at steady_times steady_forces (Z.to_nat c) = Some p ∧
    find_balance_point steady 2 1 (1 # 2) = Ok p ∧
    ((2 + 1 ≤ c < len steady - 1 ∧
      stable_at steady_forces 1 (1 # 2) c = true ∧
      ∀ c', 2 + 1 ≤ c' < c → stable_at steady_forces 1 (1 # 2) c' = false) ∨
     (c = len steady - 1 ∧
      ∀ c', 2 + 1 ≤ c' < len steady - 1 →
            stable_at steady_forces 1 (1 # 2) c' = false)).
Proof.
  apply (find_balance_point_first_stable_or_last steady steady_times
           steady_forces 2 1 (1 # 2)).
  - apply frame_well_formed. reflexivity.
  - vm_compute. reflexivity.
  - vm_compute. reflexivity.
  - vm_compute. reflexivity.
  - lia.
  - lia.
Defined.

(** ** Parameters outside the intended range *)

Lemma py_get_cases {X : Type} (l : list X) (i : Z) :
  py_get l i = Raise IndexError ∨ ∃ x, py_get l i = Ok x.
Proof.
  unfold py_get. destruct (_ && _); [|by left].
  destruct (l !! Z.to_nat _); [right; by eexists|by left].
Qed.

Lemma py_get_beyond {X : Type} (l : list X) (i : Z) :
  Z.of_nat (length l) ≤ i → py_get l i = Raise IndexError.
Proof.
  intros Hi. unfold py_get.
  destruct (Z.ltb_spec i 0) as [?|_]; [lia|].
  destruct (Z.ltb_spec i (Z.of_nat (length l))) as [?|_]; [lia|].
  by rewrite andb_false_r.
Qed.

(** A scan whose positions all fail or read an empty slice, up to a position
    that is out of range, ends in [IndexError]. *)
Lemma scan_skips_to_raise `{!Numeric} (df after : DataFrame) (w : Z) (threshold : Q)
    (pre post : list Z) (k : Z) :
  (∀ i cur, i ∈ pre → py_get (index after) i = Ok cur →
            loc_slice df (cur - w) (cur + w) "force" = Ok []) →
  py_get (index after) k = Raise IndexError →
  (balance_scan df after w threshold (pre ++ k :: post)).2 = Raise IndexError.
Proof.
  intros Hpre Hk. induction pre as [|i pre IH]; simpl.
  - by rewrite Hk.
  - destruct (py_get_cases (index after) i) as [->|[cur Hcur]]; [done|].
    rewrite Hcur, (Hpre i cur) by (done || left).
    rewrite (std_lt_short [] threshold) by (simpl; lia). simpl.
    apply IH. intros j c Hj. apply Hpre. by right.
Qed.

(** X2.  A negative window size makes [find_balance_point] raise
    [IndexError]: every slice it reads before is empty, and the loop runs
    past the end of the part of the series after [b]. *)
Theorem negative_window_IndexError `{!Numeric} (df : DataFrame) (fs : list Q) (b w : Z)
    (threshold : Q) :
  well_formed df → data df !! "force" = Some fs → 0 ≤ b → w < 0 →
  find_balance_point df b w threshold = Raise IndexError.
Proof.
  intros Hwf Hf Hb Hw.
  unfold find_balance_point, find_balance_point_reads. cbn [snd].
  pose proof (after_len df b Hb) as Hlen.
  rewrite (py_range_split w _ (len (iloc_from df b))) by lia.
  rewrite scan_skips_to_raise; [done| |].
  - intros i cur _ Hget. apply (after_get_ge df Hwf b Hb) in Hget.
    rewrite (loc_slice_window df Hwf "force" fs) by (done || lia).
    by replace (Z.to_nat (cur + w + 1 - (cur - w))) with 0%nat by lia.
  - by apply py_get_beyond.
Qed.

Lemma negative_window_IndexError_witness :
  find_balance_point jump 1 (-30) 1 = Raise IndexError.
Proof.
  apply (negative_window_IndexError jump jump_forces 1 (-30) 1).
  - apply frame_well_formed. reflexivity.
  - vm_compute. reflexivity.
  - lia.
  - lia.
Defined.

Lemma closed_window_length (col : list Q) (c w : Z) :
  (length (closed_window col c w) ≤ Z.to_nat (2 * w + 1))%nat.
Proof. unfold closed_window. rewrite length_take. lia. Qed.

Lemma stable_at_degenerate `{!Numeric} (fs : list Q) (w : Z) (threshold : Q) (c : Z) :
  w = 0 ∨ (threshold <= 0)%Q → stable_at fs w threshold c = false.
Proof.
  intros [->|Hthr]; unfold stable_at.
  - apply std_lt_short.
    pose proof (closed_window_length fs c 0) as Hlen. simpl in Hlen. lia.
  - by apply std_lt_nonpos.
Qed.

(** X3.  With a window size of zero (a window of one cell has no sample
    standard deviation) or a threshold that is not positive, no index passes
    the test and [find_balance_point] returns the last sample. *)
Theorem degenerate_parameters_fallback `{!Numeric} (df : DataFrame) (ts fs : list Q)
    (b w : Z) (threshold : Q) :
  well_formed df →
  data df !! "time" = Some ts → data df !! "force" = Some fs →
  0 < len df → 0 ≤ b → 0 ≤ w →
  w = 0 ∨ (threshold <= 0)%Q →
  ∃ p, sample_at ts fs (length (index df) - 1) = Some p ∧
       find_balance_point df b w threshold = Ok p.
Proof.
  intros Hwf Ht Hf Hlen Hb Hw Hdeg. unfold len in Hlen.
  destruct (sample_at_is_Some df Hwf ts fs (length (index df) - 1) Ht Hf)
    as [p Hp]; [lia|].
  exists p. split; [done|].
  apply (balance_point_fallback df Hwf b w Hb Hw threshold ts fs Ht Hf);
    [|done].
  intros c _. by apply stable_at_degenerate.
Qed.

Lemma degenerate_parameters_fallback_witness :
  ∃ p, sample_at steady_times steady_forces (length (index steady) - 1)
       = Some p ∧
       find_balance_point steady 2 0 1 = Ok p.
Proof.
  apply (degenerate_parameters_fallback steady steady_times steady_forces
           2 0 1).
  - apply frame_well_formed. reflexivity.
  - vm_compute. reflexivity.
  - vm_compute. reflexivity.
  - vm_compute. reflexivity.
  - lia.
  - lia.
  - left. reflexivity.
Defined.

(** * Further properties of the analysis *)

(** X4.  [process_force_data] returns [None] for the points exactly when the
    [time] or the [force] column is absent; when both are present it adds
    nothing to the page, whatever it returns or raises. *)
Theorem no_points_iff_role_missing `{!Numeric} (iter : gset string → list string)
    (df : DataFrame) (pg : page) :
  ((process_force_data_with iter df pg).1 = Ok (df, None) ↔
   "time" ∉ columns df ∨ "force" ∉ columns df) ∧
  ("time" ∈ columns df ∧ "force" ∈ columns df →
   (process_force_data_with iter df pg).2 = pg).
Proof.
  unfold process_force_data_with.
  destruct (decide (required_columns ⊆ columns df)) as [Hall|Hmiss];
    rewrite required_present in *; simpl.
  - split; [|done]. split; [|tauto].
    by destruct (key_points df).
  - split; [|tauto]. split; [|done]. intros _.
    destruct (decide ("time" ∈ columns df));
      destruct (decide ("force" ∈ columns df)); tauto.
Qed.

Lemma first_min_max_order (fs : list Q) (a b : nat) (xa xb : Q) :
  first_min fs a xa → first_max fs b xb → (xa <= xb)%Q.
Proof. intros (Ha & Hmin & _) (_ & Hmax & _). by apply (Hmax a). Qed.

(** X5.  The force of the balance point lies between the forces of A and
    B. *)
Theorem balance_force_between `{!Numeric} (df : DataFrame) (ts fs : list Q) (pg : page) :
  well_formed df →
  data df !! "time" = Some ts → data df !! "force" = Some fs →
  fs ≠ [] →
  ∃ pts : Points,
    process_force_data df pg = (Ok (df, Some pts), pg) ∧
    (force (A pts) <= force (C pts))%Q ∧ (force (C pts) <= force (B pts))%Q.
Proof.
  intros Hwf Ht Hf Hne.
  destruct (key_points_Ok df Hwf ts fs Ht Hf Hne)
    as (a & b & c & pa & pb & pc & Ha & Hb & Hpa & Hpb & Hpc & _ & _ & Hkp).
  destruct (argmin_first_min fs Hne) as (a' & xa & Ha' & Hxa & Hmin & _).
  destruct (argmax_first_max fs Hne) as (b' & xb & Hb' & Hxb & Hmax & _).
  assert (a' = a) as -> by congruence. assert (b' = b) as -> by congruence.
  apply sample_at_fields in Hpa as [_ Hfa].
  apply sample_at_fields in Hpb as [_ Hfb].
  apply sample_at_fields in Hpc as [_ Hfc].
  assert (xa = force pa) as -> by congruence.
  assert (xb = force pb) as -> by congruence.
  eexists. unfold process_force_data.
  rewrite (process_present _ df pg ts fs Ht Hf), Hkp. simpl.
  split; [done|]. split; [by apply (Hmin c)|by apply (Hmax c)].
Qed.

Lemma balance_force_between_witness :
  ∃ pts : Points,
    process_force_data jump [] = (Ok (jump, Some pts), []) ∧
    (force (A pts) <= force (C pts))%Q ∧ (force (C pts) <= force (B pts))%Q.
Proof.
  apply (balance_force_between jump jump_times jump_forces []).
  - apply frame_well_formed. reflexivity.
  - vm_compute. reflexivity.
  - vm_compute. reflexivity.
  - discriminate.
Defined.

(** ** Flat series *)

Lemma first_min_flat (fs : list Q) (a : nat) (x f : Q) :
  first_min fs a x → (∀ j y, fs !! j = Some y → (y == f)%Q) → a = 0%nat.
Proof.
  intros (Ha & _ & Hfirst) Hflat. destruct a as [|a]; [done|].
  destruct (lookup_lt_is_Some_2 fs 0) as [y Hy].
  { apply lookup_lt_Some in Ha. lia. }
  pose proof (Hfirst 0%nat y ltac:(lia) Hy) as Hlt.
  pose proof (Hflat _ _ Hy) as Hyf. pose proof (Hflat _ _ Ha) as Hxf.
  rewrite Hyf, Hxf in Hlt. by apply Qlt_irrefl in Hlt.
Qed.

Lemma first_max_flat (fs : list Q) (b : nat) (x f : Q) :
  first_max fs b x → (∀ j y, fs !! j = Some y → (y == f)%Q) → b = 0%nat.
Proof.
  intros (Hb & _ & Hfirst) Hflat. destruct b as [|b]; [done|].
  destruct (lookup_lt_is_Some_2 fs 0) as [y Hy].
  { apply lookup_lt_Some in Hb. lia. }
  pose proof (Hfirst 0%nat y ltac:(lia) Hy) as Hlt. simpl in Hlt.
  pose proof (Hflat _ _ Hy) as Hyf. pose proof (Hflat _ _ Hb) as Hxf.
  rewrite Hyf, Hxf in Hlt. by apply Qlt_irrefl in Hlt.
Qed.

(** X8.  A and B are the same sample exactly when all forces of the series
    are equal; they are then the first sample, and RFD is 0. *)
Theorem extrema_coincide_iff_flat `{!Numeric} (df : DataFrame) (ts fs : list Q)
    (pg : page) :
  well_formed df →
  data df !! "time" = Some ts → data df !! "force" = Some fs →
  fs ≠ [] →
  ∃ (pts : Points) (a b : nat),
    process_force_data df pg = (Ok (df, Some pts), pg) ∧
    argmin fs = Some a ∧ argmax fs = Some b ∧
    (a = b ↔ ∀ j y, fs !! j = Some y → (y == force (A pts))%Q) ∧
    (a = b → a = 0%nat ∧ A pts = B pts ∧ RFD (stats pts) = 0%Q).
Proof.
  intros Hwf Ht Hf Hne.
  destruct (key_points_Ok df Hwf ts fs Ht Hf Hne)
    as (a & b & c & pa & pb & pc & Ha & Hb & Hpa & Hpb & _ & _ & _ & Hkp).
  destruct (argmin_first_min fs Hne) as (a' & xa & Ha' & Hmin).
  destruct (argmax_first_max fs Hne) as (b' & xb & Hb' & Hmax).
  assert (a' = a) as -> by congruence. assert (b' = b) as -> by congruence.
  apply sample_at_fields in Hpa as Hfa. destruct Hfa as [_ Hfa].
  apply sample_at_fields in Hpb as Hfb. destruct Hfb as [_ Hfb].
  assert (xa = force pa) as -> by (destruct Hmin; congruence).
  assert (xb = force pb) as -> by (destruct Hmax; congruence).
  assert (a = b ↔ ∀ j y, fs !! j = Some y → (y == force pa)%Q) as Hiff.
  { split.
    - intros -> j y Hy. assert (pa = pb) as <- by congruence.
      destruct Hmin as (_ & Hle & _), Hmax as (_ & Hge & _).
      apply Qle_antisym; [by apply (Hge j)|by apply (Hle j)].
    - intros Hflat.
      rewrite (first_min_flat fs a _ _ Hmin Hflat).
      by rewrite (first_max_flat fs b _ _ Hmax Hflat). }
  eexists _, a, b. unfold process_force_data.
  rewrite (process_present _ df pg ts fs Ht Hf), Hkp. simpl.
  do 4 (split; [done|]).
  intros Hab. assert (pa = pb) as <- by congruence.
  split; [|split; [done|]].
  - apply (first_min_flat fs a (force pa) (force pa) Hmin). by apply Hiff.
  - unfold derived_stats. simpl.
    assert (scalar_nonzero (np_sub "time" (time pa) (time pa)) = false)
      as ->; [|done].
    by apply np_sub_zero.
Qed.

Lemma extrema_coincide_iff_flat_witness :
  ∃ (pts : Points) (a b : nat),
    process_force_data steady [] = (Ok (steady, Some pts), []) ∧
    argmin steady_forces = Some a ∧ argmax steady_forces = Some b ∧
    (a = b ↔ ∀ j y, steady_forces !! j = Some y → (y == force (A pts))%Q) ∧
    (a = b → a = 0%nat ∧ A pts = B pts ∧ RFD (stats pts) = 0%Q).
Proof.
  apply (extrema_coincide_iff_flat steady steady_times steady_forces []).
  - apply frame_well_formed. reflexivity.
  - vm_compute. reflexivity.
  - vm_compute. reflexivity.
  - discriminate.
Defined.

(** X9.  The point C that [process_force_data] returns, with the default
    window of 30 samples and threshold of 1: either the first sample, from
    30 after B to 30 before the end, at which the test [window_data.std()
    < 1] passes, or the last sample when there is none -- always so when
    fewer than 61 samples remain from B on.  The recovery time is the
    difference, as numpy computes it, of the time of that sample and the
    time of B. *)
Theorem process_balance_point_default `{!Numeric} (df : DataFrame)
    (ts fs : list Q) (pg : page) :
  well_formed df →
  data df !! "time" = Some ts → data df !! "force" = Some fs →
  fs ≠ [] →
  ∃ (pts : Points) (b : nat) (c : Z),
    process_force_data df pg = (Ok (df, Some pts), pg) ∧
    argmax fs = Some b ∧
    sample_at ts fs (Z.to_nat c) = Some (C pts) ∧
    recovery_time (stats pts) = np_sub "time" (time (C pts)) (time (B pts)) ∧
    ((Z.of_nat b + 30 ≤ c < len df - 30 ∧ stable_at fs 30 1 c = true ∧
      ∀ c', Z.of_nat b + 30 ≤ c' < c → stable_at fs 30 1 c' = false) ∨
     (c = len df - 1 ∧
      ∀ c', Z.of_nat b + 30 ≤ c' < len df - 30 →
            stable_at fs 30 1 c' = false)) ∧
    (len df - Z.of_nat b ≤ 60 → c = len df - 1).
Proof.
  intros Hwf Ht Hf Hne.
  destruct (key_points_Ok df Hwf ts fs Ht Hf Hne)
    as (a & b & c0 & pa & pb & pc & _ & Hb & _ & _ & _ & _ & Hfind & Hkp).
  assert (0 < len df) as Hlen.
  { unfold len. rewrite <- (column_length df Hwf _ _ Hf).
    destruct fs; [done|]. simpl. lia. }
  unfold default_window_size, default_std_threshold in Hfind.
  assert (∃ c : Z,
            sample_at ts fs (Z.to_nat c) = Some pc ∧
            ((Z.of_nat b + 30 ≤ c < len df - 30 ∧ stable_at fs 30 1 c = true ∧
              ∀ c', Z.of_nat b + 30 ≤ c' < c → stable_at fs 30 1 c' = false) ∨
             (c = len df - 1 ∧
              ∀ c', Z.of_nat b + 30 ≤ c' < len df - 30 →
                    stable_at fs 30 1 c' = false))) as (c & Hpc & Hcase).
  { destruct (first_true_or_none (stable_at fs 30 1) (Z.of_nat b + 30)
                (Z.to_nat (len df - 30 - (Z.of_nat b + 30))))
      as [Hnone|(c & Hc & Hstable & Hfirst)].
    - destruct (sample_at_is_Some df Hwf ts fs (length (index df) - 1) Ht Hf)
        as [p Hp]; [unfold len in Hlen; lia|].
      assert (find_balance_point df (Z.of_nat b) 30 1 = Ok p) as Hlast.
      { apply (balance_point_fallback df Hwf (Z.of_nat b) 30 ltac:(lia)
                 ltac:(lia) 1%Q ts fs Ht Hf); [|done].
        intros c Hc. apply Hnone. lia. }
      assert (p = pc) as -> by congruence.
      exists (len df - 1). unfold len at 1.
      replace (Z.to_nat (Z.of_nat (length (index df)) - 1))
        with (length (index df) - 1)%nat by lia.
      split; [done|]. right. split; [done|].
      intros c' Hc'. apply Hnone. lia.
    - assert (Z.of_nat b + 30 ≤ c < len df - 30) as Hc' by lia.
      destruct (sample_at_is_Some df Hwf ts fs (Z.to_nat c) Ht Hf) as [p Hp].
      { unfold len in Hc'. lia. }
      assert (find_balance_point df (Z.of_nat b) 30 1 = Ok p) as Hhit.
      { by apply (balance_point_found df Hwf (Z.of_nat b) 30 ltac:(lia)
                    ltac:(lia) 1%Q ts fs Ht Hf c). }
      assert (p = pc) as -> by congruence.
      exists c. split; [done|]. by left. }
  exists {| A := pa; B := pb; C := pc; stats := derived_stats pa pb pc |},
    b, c.
  unfold process_force_data.
  rewrite (process_present _ df pg ts fs Ht Hf), Hkp. simpl.
  do 4 (split; [done|]). split; [done|].
  intros Hshort. destruct Hcase as [[Hc _]|[-> _]]; [lia|done].
Qed.

Lemma process_balance_point_default_witness :
  ∃ (pts : Points) (b : nat) (c : Z),
    process_force_data jump [] = (Ok (jump, Some pts), []) ∧
    argmax jump_forces = Some b ∧
    sample_at jump_times jump_forces (Z.to_nat c) = Some (C pts) ∧
    recovery_time (stats pts) = np_sub "time" (time (C pts)) (time (B pts)) ∧
    ((Z.of_nat b + 30 ≤ c < len jump - 30 ∧
      stable_at jump_forces 30 1 c = true ∧
      ∀ c', Z.of_nat b + 30 ≤ c' < c → stable_at jump_forces 30 1 c' = false) ∨
     (c = len jump - 1 ∧
      ∀ c', Z.of_nat b + 30 ≤ c' < len jump - 30 →
            stable_at jump_forces 30 1 c' = false)) ∧
    (len jump - Z.of_nat b ≤ 60 → c = len jump - 1).
Proof.
  apply (process_balance_point_default jump jump_times jump_forces []).
  - apply frame_well_formed. reflexivity.
  - vm_compute. reflexivity.
  - vm_compute. reflexivity.
  - discriminate.
Defined.

(** * The column selection of [app.py] *)

Lemma String_app_nil_l (s : string) : "" +:+ s = s.
Proof. reflexivity. Qed.

Lemma String_app_cons (a : Ascii.ascii) (s t : string) :
  String a s +:+ t = String a (s +:+ t).
Proof. reflexivity. Qed.

Lemma String_app_assoc (a b c : string) : (a +:+ b) +:+ c = a +:+ b +:+ c.
Proof.
  induction a as [|x a IH]; [done|].
  by rewrite !String_app_cons, IH.
Qed.

Lemma prefix_app (kw s : string) :
  String.prefix kw s = true ↔ ∃ post, s = kw +:+ post.
Proof.
  revert s. induction kw as [|a kw IH]; intros s.
  - split; [intros _; exists s; reflexivity|intros _; by destruct s].
  - destruct s as [|b s]; cbn [String.prefix].
    + split; [done|]. intros [post Hpost]. by rewrite String_app_cons in Hpost.
    + destruct (Ascii.ascii_dec a b) as [->|Hne].
      * rewrite IH. split; intros [post Hpost]; exists post.
        -- by rewrite String_app_cons, Hpost.
        -- rewrite String_app_cons in Hpost. congruence.
      * split; [done|]. intros [post Hpost].
        rewrite String_app_cons in Hpost. congruence.
Qed.

(** [contains keyword s] holds exactly when [keyword] occurs in [s]. *)
Lemma contains_occurs (kw s : string) :
  contains kw s = true ↔ ∃ pre post, s = pre +:+ kw +:+ post.
Proof.
  split.
  - induction s as [|c s IH]; cbn [contains]; rewrite orb_true_iff.
    + intros [[post ->]%prefix_app|[=]]. by exists "", post.
    + intros [[post Hpost]%prefix_app|(pre & post & ->)%IH].
      * by exists "", post.
      * by exists (String c pre), post.
  - intros (pre & post & ->). induction pre as [|c pre IH].
    + rewrite String_app_nil_l.
      assert (String.prefix kw (kw +:+ post) = true) as Hp
        by (apply prefix_app; by exists post).
      destruct (kw +:+ post); cbn [contains]; by rewrite Hp.
    + rewrite String_app_cons. cbn [contains]. by rewrite IH, orb_true_r.
Qed.

Lemma contains_trans (a b s : string) :
  contains a b = true → contains b s = true → contains a s = true.
Proof.
  intros (p1 & q1 & ->)%contains_occurs (p2 & q2 & ->)%contains_occurs.
  apply contains_occurs. exists (p2 +:+ p1), (q1 +:+ q2).
  by rewrite !String_app_assoc.
Qed.

Section column_defaults_properties.
Context (lower : string → string).

(** The search returns the position of the first column whose lowered name
    contains the keyword. *)
Lemma first_keyword_column_Some (kw : string) (idx : nat)
    (columns : list string) (r : nat) :
  first_keyword_column lower kw idx columns = Some r ↔
  ∃ k col, r = (idx + k)%nat ∧ columns !! k = Some col ∧
           contains kw (lower col) = true ∧
           ∀ j col', (j < k)%nat → columns !! j = Some col' →
                     contains kw (lower col') = false.
Proof.
  revert idx. induction columns as [|c columns IH]; intros idx; simpl.
  - split; [done|]. by intros (k & col & _ & ? & _).
  - destruct (contains kw (lower c)) eqn:Ec.
    + split.
      * intros [= <-]. exists 0%nat, c. repeat split; [lia|done|lia].
      * intros (k & col & -> & Hk & Hcol & Hfirst).
        destruct k as [|k]; [f_equal; lia|].
        specialize (Hfirst 0%nat c ltac:(lia) eq_refl). congruence.
    + rewrite IH. split.
      * intros (k & col & -> & Hk & Hcol & Hfirst).
        exists (S k), col. repeat split; [lia|done..|].
        intros [|j] col' Hj; simpl; [by intros [= <-]|].
        apply Hfirst. lia.
      * intros (k & col & -> & Hk & Hcol & Hfirst).
        destruct k as [|k]; simpl in Hk; [congruence|].
        exists k, col. repeat split; [lia|done..|].
        intros j col' Hj Hcol'. apply (Hfirst (S j)); [lia|done].
Qed.

Lemma first_keyword_column_None (kw : string) (idx : nat)
    (columns : list string) :
  first_keyword_column lower kw idx columns = None ↔
  ∀ col, col ∈ columns → contains kw (lower col) = false.
Proof.
  revert idx. induction columns as [|c columns IH]; intros idx; simpl.
  - split; [|done]. by intros _ col ?%elem_of_nil.
  - destruct (contains kw (lower c)) eqn:Ec.
    + split; [done|]. intros Hall. rewrite Hall in Ec by left. done.
    + rewrite IH. split.
      * intros Hall col [->|Hin]%elem_of_cons; [done|by apply Hall].
      * intros Hall col Hin. apply Hall. by right.
Qed.

(** The loop over the keywords returns the first search result that is not
    column 0. *)
Lemma default_column_idx_first_nonzero (keywords columns : list string) :
  default_column_idx lower keywords columns 0
  = first_nonzero
      ((λ kw, first_keyword_column lower kw 0 columns) <$> keywords).
Proof.
  induction keywords as [|kw keywords IH]; csimpl; [done|].
  destruct (first_keyword_column lower kw 0 columns) as [[|k]|]; simpl; done.
Qed.

Lemma first_nonzero_S (found : list (option nat)) (k : nat) :
  first_nonzero found = S k →
  ∃ pre post, found = pre ++ Some (S k) :: post ∧
              Forall (λ r, r = None ∨ r = Some 0%nat) pre.
Proof.
  induction found as [|[[|j]|] found IH]; simpl; [done| | |].
  - intros (pre & post & -> & Hpre)%IH.
    exists (Some 0%nat :: pre), post. split; [done|].
    constructor; [by right|done].
  - intros [= ->]. by exists [], found.
  - intros (pre & post & -> & Hpre)%IH.
    exists (None :: pre), post. split; [done|].
    constructor; [by left|done].
Qed.

Lemma first_nonzero_0 (found : list (option nat)) :
  first_nonzero found = 0%nat ↔
  Forall (λ r, r = None ∨ r = Some 0%nat) found.
Proof.
  induction found as [|[[|j]|] found IH]; simpl.
  - done.
  - rewrite IH. split; [constructor; [by right|done]|by inversion 1].
  - split; [done|]. inversion 1 as [|?? [?|?]]; done.
  - rewrite IH. split; [constructor; [by left|done]|by inversion 1].
Qed.

(** X10.  A default index that is not 0 points at a column whose lowered
    name contains one of the keywords, and no earlier column contains that
    keyword; in particular it is a valid position of the list. *)
Theorem default_column_idx_nonzero (keywords columns : list string) (r : nat) :
  default_column_idx lower keywords columns 0 = r → r ≠ 0%nat →
  ∃ kw col, kw ∈ keywords ∧ columns !! r = Some col ∧
            contains kw (lower col) = true ∧
            ∀ j col', (j < r)%nat → columns !! j = Some col' →
                      contains kw (lower col') = false.
Proof.
  rewrite default_column_idx_first_nonzero. intros Hr Hnz.
  destruct r as [|k]; [done|].
  apply first_nonzero_S in Hr as (pre & post & Hfound & _).
  assert (Some (S k) ∈
          (λ kw, first_keyword_column lower kw 0 columns) <$> keywords)
    as (kw & Hkw & Hin)%list_elem_of_fmap.
  { rewrite Hfound. apply elem_of_app. right. left. }
  symmetry in Hkw.
  apply first_keyword_column_Some in Hkw as (k' & col & Hk' & Hcol & Hc & Hf).
  simpl in Hk'. subst k'. by exists kw, col.
Qed.

(** X11.  The default index is 0 exactly when every keyword that occurs in
    some column also occurs in the first column: a keyword found in the
    first column does not end the search, and the columns found for later
    keywords take precedence over it. *)
Theorem default_column_idx_zero (keywords columns : list string) :
  default_column_idx lower keywords columns 0 = 0%nat ↔
  ∀ kw col, kw ∈ keywords → col ∈ columns →
            contains kw (lower col) = true →
            ∃ col0, columns !! 0%nat = Some col0 ∧
                    contains kw (lower col0) = true.
Proof.
  rewrite default_column_idx_first_nonzero, first_nonzero_0, Forall_fmap,
    Forall_forall.
  split.
  - intros Hall kw col Hkw Hcol Hc.
    destruct (Hall kw Hkw) as [Hnone|Hzero]; simpl in *.
    + rewrite first_keyword_column_None in Hnone.
      rewrite Hnone in Hc by done. done.
    + apply first_keyword_column_Some in Hzero
        as (k & col0 & Hk & Hcol0 & Hc0 & _).
      assert (k = 0%nat) as -> by lia. by exists col0.
  - intros Hall kw Hkw. simpl.
    destruct (first_keyword_column lower kw 0 columns) as [r|] eqn:Er;
      [|by left].
    right. f_equal.
    apply first_keyword_column_Some in Er as (k & col & -> & Hcol & Hc & Hf).
    destruct (Hall kw col Hkw) as (col0 & Hcol0 & Hc0);
      [by apply list_elem_of_lookup; eexists|done|].
    destruct k as [|k]; [done|].
    rewrite (Hf 0%nat col0) in Hc0 by (done || lia). done.
Qed.

(** X12.  The default force column honours the order of its keywords: it is
    the first column whose lowered name contains [sumforce], or else the
    first that contains [force], or else column 0. *)
Theorem default_force_idx_priority (columns : list string) :
  default_force_idx lower columns
  = match first_keyword_column lower "sumforce" 0 columns with
    | Some k => k
    | None =>
        match first_keyword_column lower "force" 0 columns with
        | Some k => k
        | None => 0%nat
        end
    end.
Proof.
  unfold default_force_idx, force_keywords. simpl.
  destruct (first_keyword_column lower "sumforce" 0 columns) as [[|k]|] eqn:Es;
    simpl; [|done|].
  - apply first_keyword_column_Some in Es as (k & col & Hk & Hcol & Hc & _).
    assert (k = 0%nat) as -> by lia.
    assert (first_keyword_column lower "force" 0 columns = Some 0%nat) as ->;
      [|done].
    apply first_keyword_column_Some. exists 0%nat, col.
    repeat split; [done| |lia].
    apply (contains_trans _ "sumforce"); [|done]. vm_compute. reflexivity.
  - by destruct (first_keyword_column lower "force" 0 columns) as [[|k]|].
Qed.

End column_defaults_properties.

Example time_default_skips_first_column :
  default_time_idx ascii_lower ["時間"; "time_ms"; "Fz"] = 1%nat.
Proof. vm_compute. reflexivity. Qed.

Lemma default_column_idx_nonzero_witness :
  ∃ kw col, kw ∈ time_keywords ∧
            ["時間"; "time_ms"; "Fz"] !! 1%nat = Some col ∧
            contains kw (ascii_lower col) = true ∧
            ∀ j col', (j < 1)%nat → ["時間"; "time_ms"; "Fz"] !! j = Some col' →
                      contains kw (ascii_lower col') = false.
Proof.
  apply (default_column_idx_nonzero ascii_lower time_keywords
           ["時間"; "time_ms"; "Fz"] 1%nat).
  - vm_compute. reflexivity.
  - lia.
Defined.

(** * The renaming and the analysis in [main] *)

(** With the default selection on [repeating_header] the frame passed to
    [process_force_data] carries the label [time] twice, and the column
    check lets it through. *)
Example default_selection_repeats_time :
  repeating_header !! default_time_idx ascii_lower repeating_header
  = Some "Time(s)" ∧
  repeating_header !! default_force_idx ascii_lower repeating_header
  = Some "force" ∧
  renamed_labels (rename_mapper "Time(s)" "force") repeating_header
  = ["force"; "time"; "time"] ∧
  required_columns
  ⊆ list_to_set
      (renamed_labels (rename_mapper "Time(s)" "force") repeating_header).
Proof.
  repeat split; try (vm_compute; reflexivity).
  apply (bool_decide_unpack _). vm_compute. exact I.
Qed.

Lemma rename_label_mapper (time_column force_column c : string) :
  rename_label (rename_mapper time_column force_column) c
  = if decide (c = force_column) then "force"
    else if decide (c = time_column) then "time" else c.
Proof.
  unfold rename_label, rename_mapper.
  destruct (decide (c = force_column)) as [->|Hf].
  - by rewrite lookup_insert_eq.
  - rewrite lookup_insert_ne by done.
    destruct (decide (c = time_column)) as [->|Ht].
    + by rewrite lookup_insert_eq.
    + by rewrite lookup_insert_ne, lookup_empty by done.
Qed.

Lemma rename_lookup_inv (df : DataFrame) (mapper : gmap string string)
    (k : string) (col : list Q) :
  data (rename df mapper) !! k = Some col →
  ∃ c, k = rename_label mapper c ∧ data df !! c = Some col.
Proof.
  unfold rename. simpl. intros Hk%elem_of_list_to_map_2.
  apply list_elem_of_fmap in Hk as ([c col'] & [= -> ->] & Hin).
  apply elem_of_map_to_list in Hin. by exists c.
Qed.

Lemma rename_lookup (df : DataFrame) (mapper : gmap string string)
    (c : string) (col : list Q) :
  rename_safe df mapper → data df !! c = Some col →
  data (rename df mapper) !! rename_label mapper c = Some col.
Proof.
  intros Hsafe Hc. unfold rename. simpl. apply elem_of_list_to_map_1'.
  - intros col' ([c' col''] & [= Hlabel ->] & Hin)%list_elem_of_fmap.
    apply elem_of_map_to_list in Hin.
    assert (c = c') as <-; [|congruence].
    apply Hsafe; [by apply elem_of_dom; eexists..|done].
  - apply list_elem_of_fmap. exists (c, col). split; [done|].
    by apply elem_of_map_to_list.
Qed.

Lemma columns_rename (df : DataFrame) (mapper : gmap string string)
    (k : string) :
  k ∈ columns (rename df mapper) ↔
  ∃ c, c ∈ columns df ∧ k = rename_label mapper c.
Proof.
  unfold columns. rewrite elem_of_dom. split.
  - intros [col (c & -> & Hc)%rename_lookup_inv]. exists c.
    split; [by apply elem_of_dom; eexists|done].
  - intros (c & [col Hc]%elem_of_dom & ->). unfold rename. simpl.
    destruct (list_to_map _ !! rename_label mapper c) eqn:E; [done|].
    apply not_elem_of_list_to_map in E. destruct E.
    apply list_elem_of_fmap. exists (rename_label mapper c, col).
    split; [done|]. apply list_elem_of_fmap. exists (c, col).
    split; [done|]. by apply elem_of_map_to_list.
Qed.

Lemma rename_well_formed (df : DataFrame) (mapper : gmap string string) :
  well_formed df → well_formed (rename df mapper).
Proof.
  intros [Hidx Hcols]. split; [done|].
  intros k col (c & _ & Hc)%rename_lookup_inv. simpl. by apply (Hcols c).
Qed.

Lemma column_missing (df : DataFrame) (c : string) :
  c ∉ columns df → column df c = Raise KeyError.
Proof.
  unfold columns, column. intros Hc%not_elem_of_dom. by rewrite Hc.
Qed.

Lemma column_present (df : DataFrame) (c : string) :
  c ∈ columns df → ∃ col, column df c = Ok col.
Proof.
  unfold columns, column. intros [col Hc]%elem_of_dom. rewrite Hc.
  by exists col.
Qed.

(** X13.  [main] does not handle the [None] that [process_force_data]
    returns: whenever a role is missing after the renaming, the chart's
    [df['time']] or [df['force']] raises [KeyError], and [points.items()] is
    never reached with [None]. *)
Theorem main_missing_role_KeyError `{!Numeric} (df : DataFrame)
    (time_column force_column : string) (pg : page) :
  ("time" ∉ columns (rename df (rename_mapper time_column force_column)) ∨
   "force" ∉ columns (rename df (rename_mapper time_column force_column)) →
   (main df time_column force_column pg).1 = Crash (Pandas KeyError)) ∧
  (main df time_column force_column pg).1 ≠ Crash AttributeError.
Proof.
  unfold main, process_force_data, process_force_data_with.
  set (df' := rename df (rename_mapper time_column force_column)).
  destruct (decide (required_columns ⊆ columns df')) as [Hall|Hmiss];
    rewrite required_present in *; simpl.
  - split; [tauto|].
    destruct (key_points df') as [pts|e]; simpl; [|done].
    destruct Hall as [[ts ->]%column_present [fs ->]%column_present]. done.
  - assert (column df' "time" = Raise KeyError ∨
            ∃ col, column df' "time" = Ok col ∧
                   column df' "force" = Raise KeyError) as Hcol.
    { destruct (decide ("time" ∈ columns df')) as [Ht|Ht].
      - right. destruct (column_present _ _ Ht) as [col Hcol].
        exists col. split; [done|]. apply column_missing. tauto.
      - left. by apply column_missing. }
    destruct Hcol as [->|(col & -> & ->)]; by split.
Qed.

(** X14.  When the same column is selected for both roles, the dictionary
    of the renaming holds one entry, the column becomes [force], no column
    is [time] unless another one was named so, and [main] ends in
    [KeyError] after the one warning about the time column. *)
Theorem main_same_column_KeyError `{!Numeric} (df : DataFrame) (column : string)
    (pg : page) :
  column ∈ columns df →
  "time" ∉ columns df ∨ column = "time" →
  main df column column pg = (Crash (Pandas KeyError), pg ++ [time_warning]).
Proof.
  intros Hcol Htime.
  set (df' := rename df (rename_mapper column column)).
  assert ("time" ∉ columns df') as Hno.
  { intros (c & Hc & Hlabel)%columns_rename.
    rewrite rename_label_mapper in Hlabel.
    destruct (decide (c = column)) as [->|Hne]; [done|].
    destruct Htime as [Htime| ->]; congruence. }
  assert ("force" ∈ columns df') as Hyes.
  { apply columns_rename. exists column. split; [done|].
    rewrite rename_label_mapper. by rewrite decide_True. }
  unfold main, process_force_data. fold df'.
  rewrite process_missing by (rewrite required_present; tauto). cbn [fst snd].
  rewrite (column_missing df' "time" Hno). f_equal. f_equal.
  replace (required_columns ∖ columns df') with ({[ "time" ]} : gset string)
    by (unfold required_columns; set_solver).
  by rewrite elements_singleton.
Qed.

Lemma main_same_column_KeyError_witness :
  main upload "SumForce" "SumForce" []
  = (Crash (Pandas KeyError), [] ++ [time_warning]).
Proof.
  apply (main_same_column_KeyError upload "SumForce" []).
  - apply (bool_decide_unpack _). vm_compute. exact I.
  - left. apply (bool_decide_unpack _). vm_compute. exact I.
Defined.

(** X15.  When two different columns are selected on a non-empty frame in
    which no other column is named [time] or [force], [main] raises nothing
    and adds no warning, and the points it shows are samples of the two
    selected columns. *)
Theorem main_distinct_columns_shown `{!Numeric} (df : DataFrame)
    (time_column force_column : string) (ts fs : list Q) (pg : page) :
  well_formed df →
  data df !! time_column = Some ts → data df !! force_column = Some fs →
  time_column ≠ force_column → fs ≠ [] →
  (∀ c, c ∈ columns df → c ≠ time_column → c ≠ force_column →
        c ≠ "time" ∧ c ≠ "force") →
  ∃ (pts : Points) (a b c : nat),
    main df time_column force_column pg = (Shown pts, pg) ∧
    sample_at ts fs a = Some (A pts) ∧
    sample_at ts fs b = Some (B pts) ∧
    sample_at ts fs c = Some (C pts).
Proof.
  intros Hwf Hts Hfs Hne Hnonempty Hothers.
  set (mapper := rename_mapper time_column force_column).
  assert (rename_safe df mapper) as Hsafe.
  { intros c c' Hc Hc'. unfold mapper. rewrite !rename_label_mapper.
    pose proof (Hothers c Hc). pose proof (Hothers c' Hc').
    repeat case_decide; naive_solver. }
  assert (data (rename df mapper) !! "time" = Some ts) as Ht.
  { rewrite <- (rename_lookup df mapper time_column ts Hsafe Hts).
    f_equal. unfold mapper. rewrite rename_label_mapper.
    by rewrite decide_False, decide_True. }
  assert (data (rename df mapper) !! "force" = Some fs) as Hf.
  { rewrite <- (rename_lookup df mapper force_column fs Hsafe Hfs).
    f_equal. unfold mapper. rewrite rename_label_mapper.
    by rewrite decide_True. }
  pose proof (rename_well_formed df mapper Hwf) as Hwf'.
  destruct (key_points_Ok (rename df mapper) Hwf' ts fs Ht Hf Hnonempty)
    as (a & b & c & pa & pb & pc & _ & _ & Hpa & Hpb & Hpc & _ & _ & Hkp).
  eexists _, a, b, c. unfold main, process_force_data. fold mapper.
  rewrite (process_present _ _ pg ts fs Ht Hf), Hkp. simpl.
  unfold column. rewrite Ht, Hf. simpl. done.
Qed.

Lemma main_distinct_columns_shown_witness :
  ∃ (pts : Points) (a b c : nat),
    main upload "Time(s)" "SumForce" [] = (Shown pts, []) ∧
    sample_at [0; 1; 2]%Q [5; 9; 7]%Q a = Some (A pts) ∧
    sample_at [0; 1; 2]%Q [5; 9; 7]%Q b = Some (B pts) ∧
    sample_at [0; 1; 2]%Q [5; 9; 7]%Q c = Some (C pts).
Proof.
  apply (main_distinct_columns_shown upload "Time(s)" "SumForce").
  - split; [reflexivity|].
    intros c col Hc. unfold upload in Hc. simpl in Hc.
    apply lookup_insert_Some in Hc as [[_ <-]|[_ Hc]]; [done|].
    apply lookup_insert_Some in Hc as [[_ <-]|[_ Hc]]; [done|].
    by apply lookup_singleton_Some in Hc as [_ <-].
  - vm_compute. reflexivity.
  - vm_compute. reflexivity.
  - discriminate.
  - discriminate.
  - intros c Hc Ht Hf. unfold columns, upload in Hc. simpl in Hc.
    rewrite !dom_insert_L, dom_singleton_L in Hc. set_solver.
Defined.
